(** * A model of vce2flashquiz.py

    The converter turns the text and images that a PDF library extracts
    from a VCE exam dump into Flashquiz markup.  The PDF library itself is
    an external collaborator: the model starts from what it hands over,
    the per-page extracted text ([page.extract_text()]) and the ordered
    list of image occurrences ([extract_all_image_occurrences]).

    Python strings are modelled as ASCII strings ([String.string]), Python
    [bytes] as [list Byte.byte], and the [set] of already seen base64 data
    as a [gset string]. *)

From Stdlib Require Import String Ascii ZArith Lia Sorting.Sorted.
From stdpp Require Import base list gmap strings.

Local Open Scope string_scope.
Local Open Scope nat_scope.

Infix "+s+" := String.append (at level 60, right associativity).

(** stdpp makes [String.append] opaque to [simpl]; the proofs below
    compute with it. *)
Arguments String.append : simpl nomatch.

(* ------------------------------------------------------------------ *)
(** ** Character classes and string helpers (Python [str] methods)     *)

Definition code (c : ascii) : nat := nat_of_ascii c.

(** [str.isspace] / regex [\s] restricted to ASCII: \t \n \v \f \r,
    the separators \x1c-\x1f, and the space. *)
Definition is_space (c : ascii) : bool :=
  let n := code c in
  ((9 <=? n) && (n <=? 13)) || ((28 <=? n) && (n <=? 32)).

(** regex [\d] (ASCII digits). *)
Definition is_digit (c : ascii) : bool :=
  let n := code c in (48 <=? n) && (n <=? 57).

(** regex [[A-Z]]. *)
Definition is_upper (c : ascii) : bool :=
  let n := code c in (65 <=? n) && (n <=? 90).

(** [str.lower] on one character. *)
Definition lower_char (c : ascii) : ascii :=
  if is_upper c then ascii_of_nat (code c + 32) else c.

Fixpoint lower (s : string) : string :=
  match s with
  | EmptyString => EmptyString
  | String c r => String (lower_char c) (lower r)
  end.

Fixpoint lstrip (s : string) : string :=
  match s with
  | EmptyString => EmptyString
  | String c r => if is_space c then lstrip r else s
  end.

Fixpoint rev_str (s : string) (acc : string) : string :=
  match s with
  | EmptyString => acc
  | String c r => rev_str r (String c acc)
  end.

Definition rstrip (s : string) : string :=
  rev_str (lstrip (rev_str s EmptyString)) EmptyString.

(** [str.strip()]. *)
Definition strip (s : string) : string := rstrip (lstrip s).

(** [s.split(ch)] for a one-character separator: always at least one
    piece. *)
Fixpoint split_char (ch : ascii) (s : string) : list string :=
  match s with
  | EmptyString => [EmptyString]
  | String c r =>
      if Ascii.eqb c ch then EmptyString :: split_char ch r
      else match split_char ch r with
           | p :: ps => String c p :: ps
           | [] => [String c EmptyString]
           end
  end.

(** [sep.join(xs)]. *)
Fixpoint join (sep : string) (xs : list string) : string :=
  match xs with
  | [] => EmptyString
  | [x] => x
  | x :: r => x +s+ sep +s+ join sep r
  end.

(** [pre in s] (substring test). *)
Fixpoint contains (pre s : string) : bool :=
  String.prefix pre s ||
  match s with
  | EmptyString => false
  | String _ r => contains pre r
  end.

(** [s.split(sep)[1]] for a multi-character separator [sep] that occurs
    in [s]: the text after the first occurrence of [sep] up to the next
    one (or the end).  [upto_sep] reads a piece, [after_sep] skips to the
    end of the first occurrence. *)
Fixpoint upto_sep (fuel : nat) (sep s : string) : string :=
  match fuel with
  | O => s
  | S f =>
      if String.prefix sep s then EmptyString
      else match s with
           | EmptyString => EmptyString
           | String c r => String c (upto_sep f sep r)
           end
  end.

Fixpoint after_sep (sep s : string) : string :=
  if String.prefix sep s then substring (String.length sep) (String.length s) s
  else match s with
       | EmptyString => EmptyString
       | String _ r => after_sep sep r
       end.

Definition split_second (sep s : string) : string :=
  let r := after_sep sep s in upto_sep (S (String.length r)) sep r.

(* ------------------------------------------------------------------ *)
(** ** get_image_base64_from_data                                      *)

Definition b64_alphabet : string :=
  "ABCDEFGHIJKLMNOPQRSTUVWXYZabcdefghijklmnopqrstuvwxyz0123456789+/".

Definition b64_char (n : N) : ascii :=
  match String.get (N.to_nat n) b64_alphabet with
  | Some c => c
  | None => "="%char
  end.

(** [base64.b64encode] (RFC 4648, standard alphabet, with padding). *)
Fixpoint b64encode (l : list Byte.byte) : string :=
  match l with
  | a :: b :: c :: r =>
      let x := Byte.to_N a in let y := Byte.to_N b in let z := Byte.to_N c in
      String (b64_char (N.shiftr x 2))
        (String (b64_char (N.lor (N.shiftl (N.land x 3) 4) (N.shiftr y 4)))
          (String (b64_char (N.lor (N.shiftl (N.land y 15) 2) (N.shiftr z 6)))
            (String (b64_char (N.land z 63)) (b64encode r))))
  | [a; b] =>
      let x := Byte.to_N a in let y := Byte.to_N b in
      String (b64_char (N.shiftr x 2))
        (String (b64_char (N.lor (N.shiftl (N.land x 3) 4) (N.shiftr y 4)))
          (String (b64_char (N.shiftl (N.land y 15) 2)) "="))
  | [a] =>
      let x := Byte.to_N a in
      String (b64_char (N.shiftr x 2))
        (String (b64_char (N.shiftl (N.land x 3) 4)) "==")
  | [] => EmptyString
  end.

(** [bytes.startswith]. *)
Fixpoint bytes_startswith (pre l : list Byte.byte) : bool :=
  match pre, l with
  | [], _ => true
  | p :: ps, b :: bs => Byte.eqb p b && bytes_startswith ps bs
  | _ :: _, [] => false
  end.

(** [name.split('.')[-1]]. *)
Definition last_component (name : string) : string :=
  List.last (split_char "." name) EmptyString.

(** Lines 10-25.  The [except] branch returns [None]; with [bytes] data
    and a [str] name no statement of the [try] body raises, so the model
    has no path to it. *)
Definition get_image_base64_from_data (data : list Byte.byte) (name : string)
    : option string :=
  let ext :=
    if bytes_startswith [Byte.xff; Byte.xd8] data then "jpg"
    else if bytes_startswith [Byte.x89; Byte.x50; Byte.x4e; Byte.x47] data then "png"
    else if bytes_startswith [Byte.x47; Byte.x49; Byte.x46] data then "gif"
    else
      let e := lower (last_component name) in
      if bool_decide (e ∈ ["png"; "jpg"; "jpeg"; "gif"]) then e else "png" in
  let b64_data := b64encode data in
  Some ("data:image/" +s+ ext +s+ ";base64," +s+ b64_data).

(* ------------------------------------------------------------------ *)
(** ** Regular expressions of parse_vce_pdf                            *)

Fixpoint count_while (p : ascii -> bool) (s : string) : nat :=
  match s with
  | EmptyString => 0
  | String c r => if p c then S (count_while p r) else 0
  end.

(** [s[n:]]. *)
Definition str_drop (n : nat) (s : string) : string :=
  substring n (String.length s - n) s.

(** [re.match(r'QUESTION\s+\d+', s)]: the length of the match at the
    start of [s].  [\s+] and [\d+] are greedy and their classes are
    disjoint, so no backtracking can produce another match. *)
Definition match_question_at (s : string) : option nat :=
  if String.prefix "QUESTION" s then
    let r := str_drop 8 s in
    let n1 := count_while is_space r in
    let n2 := count_while is_digit (str_drop n1 r) in
    if (n1 =? 0) || (n2 =? 0) then None else Some (8 + n1 + n2)
  else None.

(** [re.finditer(r'QUESTION\s+\d+', s)] as (start, end) pairs: every
    position is tried in turn, and after a match the search resumes at
    its end ([skip] counts the characters still covered by it). *)
Fixpoint scan_markers (s : string) (pos skip : nat) : list (nat * nat) :=
  match s with
  | EmptyString => []
  | String _ r =>
      match skip with
      | S k => scan_markers r (S pos) k
      | O =>
          match match_question_at s with
          | Some len => (pos, pos + len) :: scan_markers r (S pos) (len - 1)
          | None => scan_markers r (S pos) 0
          end
      end
  end.

Definition finditer_question (s : string) : list (nat * nat) :=
  scan_markers s 0 0.

(** [re.match(r'^[A-Z]\.', line)]. *)
Definition is_option_line (l : string) : bool :=
  match l with
  | String c (String d _) => is_upper c && Ascii.eqb d "."
  | _ => false
  end.

(** The group [.*] of [match_option]: [.] matches anything but a newline. *)
Fixpoint take_line (s : string) : string :=
  match s with
  | EmptyString => EmptyString
  | String c r => if Ascii.eqb c "010" then EmptyString else String c (take_line r)
  end.

(** [re.match(r'^([A-Z])\.\s*(...)', opt)] with the second group [.*]:
    the two groups.  [\s*] is [lstrip], whose class is the one of [\s]. *)
Definition match_option (opt : string) : option (ascii * string) :=
  match opt with
  | String c (String d r) =>
      if is_upper c && Ascii.eqb d "." then Some (c, take_line (lstrip r)) else None
  | _ => None
  end.

(** [re.sub(r'^QUESTION\s+\d+\s*', '', l)]. *)
Definition sub_question_marker (l : string) : string :=
  match match_question_at l with
  | Some len => lstrip (str_drop len l)
  | None => l
  end.

(** [re.findall(r'[A-Z]', s)], each match lowercased (line 154). *)
Definition answer_letters (s : string) : list string :=
  map (fun c => String (lower_char c) EmptyString)
      (List.filter (fun c => is_upper c) (list_ascii_of_string s)).

(* ------------------------------------------------------------------ *)
(** ** Data model                                                      *)

(** An entry of [all_images_list]: [{'page': i, 'b64': b64}]. *)
Record image_occ := { img_page : nat; img_b64 : string }.

(** An entry of [questions]:
    [{'type': .., 'text': .., 'options': .., 'answer': ..}]. *)
Record question := {
  q_type : string;
  q_text : string;
  q_options : list string;
  q_answer : string
}.

Definition nl : string := String "010" EmptyString.

Definition default_title : string := "VCE Quiz".

(* ------------------------------------------------------------------ *)
(** ** Text buffer and page offsets (lines 64-72)                      *)

Fixpoint build_text_from (pages : list string) (i current_offset : nat)
    : string * list (nat * nat) :=
  match pages with
  | [] => (EmptyString, [])
  | p :: ps =>
      let text := p +s+ String "010" EmptyString in
      let '(rest, offs) := build_text_from ps (S i) (current_offset + String.length text) in
      (text +s+ rest, (current_offset, i) :: offs)
  end.

Definition full_text (pages : list string) : string := fst (build_text_from pages 0 0).
Definition page_offsets (pages : list string) : list (nat * nat) :=
  snd (build_text_from pages 0 0).

(** Lines 92-96: the last page whose offset is at most [q_start]
    (resp. [q_end]). *)
Definition page_span (po : list (nat * nat)) (q_start q_end : nat) : nat * nat :=
  fold_left
    (fun '(sp, ep) '(offset, page_idx) =>
       (if offset <=? q_start then page_idx else sp,
        if offset <=? q_end then page_idx else ep))
    po (0, 0).

(** Lines 87-89: each marker starts a span that ends at the next marker
    or at the end of the buffer. *)
Fixpoint spans (ms : list (nat * nat)) (len : nat) : list (nat * nat) :=
  match ms with
  | [] => []
  | (st, _) :: r =>
      (st, match r with (st', _) :: _ => st' | [] => len end) :: spans r len
  end.

(** Lines 76-83. *)
Definition quiz_title (ft : string) (ms : list (nat * nat)) : string :=
  match ms with
  | [] => default_title
  | (st, _) :: _ =>
      let header := strip (substring 0 st ft) in
      if String.eqb header EmptyString then default_title
      else match split_char "010" header with
           | l :: _ => strip l
           | [] => default_title
           end
  end.

(* ------------------------------------------------------------------ *)
(** ** Lines of a span (lines 98-104)                                  *)

Definition span_lines (part : string) : list string :=
  List.filter (fun l => negb (String.eqb (strip l) EmptyString))
         (map strip (split_char "010" (strip part))).

Definition clean_first (lines : list string) : list string :=
  match lines with
  | [] => []
  | first_line :: r =>
      let first_line_clean := strip (sub_question_marker first_line) in
      if String.eqb first_line_clean EmptyString then r else first_line_clean :: r
  end.

(* ------------------------------------------------------------------ *)
(** ** Line classification (lines 106-122)                             *)

Record cls := {
  question_text_lines : list string;
  options : list string;
  correct_answer_str : string;
  parsing_options : bool
}.

Definition cls_init : cls := {|
  question_text_lines := []; options := []; correct_answer_str := EmptyString;
  parsing_options := false |}.

(** [options[-1] += " " + line]. *)
Fixpoint append_last (xs : list string) (line : string) : list string :=
  match xs with
  | [] => []
  | [x] => [x +s+ " " +s+ line]
  | x :: r => x :: append_last r line
  end.

Definition classify_step (c : cls) (line : string) : cls :=
  if is_option_line line then
    {| question_text_lines := question_text_lines c;
       options := options c ++ [line];
       correct_answer_str := correct_answer_str c;
       parsing_options := true |}
  else if contains "Correct Answer:" line then
    {| question_text_lines := question_text_lines c;
       options := options c;
       correct_answer_str := strip (split_second "Correct Answer:" line);
       parsing_options := false |}
  else if negb (parsing_options c) then
    {| question_text_lines := question_text_lines c ++ [line];
       options := options c;
       correct_answer_str := correct_answer_str c;
       parsing_options := parsing_options c |}
  else match options c with
       | [] =>
           {| question_text_lines := question_text_lines c ++ [line];
              options := options c;
              correct_answer_str := correct_answer_str c;
              parsing_options := parsing_options c |}
       | _ :: _ =>
           {| question_text_lines := question_text_lines c;
              options := append_last (options c) line;
              correct_answer_str := correct_answer_str c;
              parsing_options := parsing_options c |}
       end.

Definition classify (lines : list string) : cls := fold_left classify_step lines cls_init.

(* ------------------------------------------------------------------ *)
(** ** Exhibit assignment (lines 128-151)                              *)

(** [all_images_list[idx]['b64']]; [idx] always comes from
    [enumerate(all_images_list)], so the default is never used. *)
Definition b64_at (imgs : list image_occ) (idx : nat) : string :=
  match imgs !! idx with
  | Some img => img_b64 img
  | None => EmptyString
  end.

(** [images_in_span_indices]: indices, in order, of the occurrences whose
    page lies in [q_start_page, q_end_page]. *)
Fixpoint in_span_from (imgs : list image_occ) (idx q_start_page q_end_page : nat)
    : list nat :=
  match imgs with
  | [] => []
  | img :: r =>
      let rest := in_span_from r (S idx) q_start_page q_end_page in
      if (q_start_page <=? img_page img) && (img_page img <=? q_end_page)
      then idx :: rest else rest
  end.

Definition images_in_span_indices (imgs : list image_occ) (sp ep : nat) : list nat :=
  in_span_from imgs 0 sp ep.

(** State of the walk of lines 134-142. *)
Record walk := {
  last_image_idx_used : Z;
  assigned_images : list string;
  seen_b64 : gset string
}.

Definition walk_step (imgs : list image_occ) (w : walk) (idx : nat) : walk :=
  if (last_image_idx_used w <? Z.of_nat idx)%Z then
    let b64 := b64_at imgs idx in
    if bool_decide (b64 ∈ seen_b64 w) then
      {| last_image_idx_used := Z.of_nat idx;
         assigned_images := assigned_images w;
         seen_b64 := seen_b64 w |}
    else
      {| last_image_idx_used := Z.of_nat idx;
         assigned_images := assigned_images w ++ [b64];
         seen_b64 := {[ b64 ]} ∪ seen_b64 w |}
  else w.

Definition exhibit_walk (imgs : list image_occ) (idxs : list nat) (last : Z) : walk :=
  fold_left (walk_step imgs) idxs
    {| last_image_idx_used := last; assigned_images := []; seen_b64 := ∅ |}.

(** Lines 144-148: the fallback. *)
Definition with_fallback (imgs : list image_occ) (idxs : list nat) (assigned : list string)
    : list string :=
  match assigned, idxs with
  | [], _ :: _ => [b64_at imgs (List.last idxs 0)]
  | _, _ => assigned
  end.

Definition exhibit_ref (b64 : string) : string :=
  nl +s+ nl +s+ "![Exhibit](" +s+ b64 +s+ ")".

(** Lines 150-151. *)
Definition append_exhibits (q_text : string) (assigned : list string) : string :=
  fold_left (fun t b64 => t +s+ exhibit_ref b64) assigned q_text.

(** Lines 128-151: the new question text and high-water mark. *)
Definition assign_exhibits (imgs : list image_occ) (sp ep : nat) (last : Z) (q_text : string)
    : string * Z :=
  if contains "exhibit" (lower q_text) then
    let idxs := images_in_span_indices imgs sp ep in
    let w := exhibit_walk imgs idxs last in
    (append_exhibits q_text (with_fallback imgs idxs (assigned_images w)),
     last_image_idx_used w)
  else (q_text, last).

(* ------------------------------------------------------------------ *)
(** ** Question type and answer (lines 153-188)                        *)

(** [m.group(1).strip().lower()] for each option (lines 158-163). *)
Definition opt_texts (opts : list string) : list string :=
  omap (fun opt => match match_option opt with
                   | Some (_, t) => Some (lower (strip t))
                   | None => None
                   end) opts.

Definition is_tf (opts : list string) : bool :=
  (length opts =? 2) &&
  bool_decide ("true" ∈ opt_texts opts) && bool_decide ("false" ∈ opt_texts opts).

(** Lines 167-173. *)
Definition formatted_options (opts : list string) : list string :=
  omap (fun opt => match match_option opt with
                   | Some (letter, text) =>
                       Some (String (lower_char letter) EmptyString +s+ ") " +s+ strip text)
                   | None => None
                   end) opts.

Definition build_question (q_text : string) (opts : list string) (correct : string)
    : question :=
  let answers := answer_letters correct in
  if is_tf opts then
    let ans_letter := match answers with a :: _ => a | [] => "a" end in
    {| q_type := "@tf"; q_text := q_text; q_options := [];
       q_answer := if String.eqb ans_letter "a" then "true" else "false" |}
  else
    {| q_type := if length answers =? 1 then "@mc" else "@sata";
       q_text := q_text; q_options := formatted_options opts;
       q_answer := join ", " answers |}.

(* ------------------------------------------------------------------ *)
(** ** The loop over the markers (lines 85-188)                        *)

(** Loop state: [last_image_idx_used] and the [questions] built so far. *)
Definition parse_state : Type := Z * list question.

Definition process_span (imgs : list image_occ) (po : list (nat * nat)) (ft : string)
    (st : parse_state) (span : nat * nat) : parse_state :=
  let '(last, questions) := st in
  let '(q_start, q_end) := span in
  let part := substring q_start (q_end - q_start) ft in
  let '(q_start_page, q_end_page) := page_span po q_start q_end in
  match span_lines part with
  | [] => st
  | lines =>
      let c := classify (clean_first lines) in
      if (match question_text_lines c with [] => true | _ => false end)
         || String.eqb (correct_answer_str c) EmptyString
      then st
      else
        let q_text := join " " (question_text_lines c) in
        let '(q_text', last') := assign_exhibits imgs q_start_page q_end_page last q_text in
        (last', (questions ++ [build_question q_text' (options c) (correct_answer_str c)])%list)
  end.

Definition process_spans (imgs : list image_occ) (po : list (nat * nat)) (ft : string)
    (sps : list (nat * nat)) (st : parse_state) : parse_state :=
  fold_left (process_span imgs po ft) sps st.

(** [parse_vce_pdf], from the page texts and the image occurrences the
    PDF library hands over. *)
Definition parse_vce_pdf (pages : list string) (imgs : list image_occ)
    : string * list question :=
  let ft := full_text pages in
  let po := page_offsets pages in
  let markers := finditer_question ft in
  let title := quiz_title ft markers in
  let '(_, questions) := process_spans imgs po ft (spans markers (String.length ft)) ((-1)%Z, []) in
  (title, questions).

(* ------------------------------------------------------------------ *)
(** ** format_flashquiz (lines 192-213)                                *)

Definition dq : string := String "034" EmptyString.

(** [str(n)] for a natural number: decimal digits. *)
Fixpoint decimal_fuel (fuel n : nat) (acc : string) : string :=
  match fuel with
  | O => acc
  | S f =>
      let acc' := String (ascii_of_nat (48 + n mod 10)) acc in
      if n <? 10 then acc' else decimal_fuel f (n / 10) acc'
  end.

Definition nat_to_string (n : nat) : string := decimal_fuel (S n) n EmptyString.

(** The formatter touches two objects: the caller's [questions] list,
    which it receives by reference, and its own [output] list. *)
Record store := {
  st_questions : list question;
  st_output : list string
}.

Definition M (A : Type) : Type := store -> A * store.

Global Instance M_ret : MRet M := fun A x s => (x, s).
Global Instance M_bind : MBind M :=
  fun A B f m s => let '(x, s') := m s in f x s'.

Definition read_questions : M (list question) := fun s => (st_questions s, s).
Definition read_output : M (list string) := fun s => (st_output s, s).

(** [output = []]. *)
Definition new_output : M unit :=
  fun s => (tt, {| st_questions := st_questions s; st_output := [] |}).

(** [output.append(line)]. *)
Definition output_append (line : string) : M unit :=
  fun s => (tt, {| st_questions := st_questions s; st_output := (st_output s ++ [line])%list |}).

Fixpoint output_extend (lines : list string) : M unit :=
  match lines with
  | [] => mret tt
  | l :: r => output_append l ≫= fun _ => output_extend r
  end.

Definition header_lines (title : string) : list string :=
  ["---"; "quiz-title: " +s+ dq +s+ title +s+ dq; "time-limit: 0"; "pass-score: 80";
   "shuffle: true"; "show-answer: true"; "exam-range: " +s+ dq +s+ "-" +s+ dq; "---"; ""].

(** The lines emitted for the [i]-th question (lines 206-211). *)
Definition question_lines (i : nat) (q : question) : list string :=
  [q_type q +s+ " " +s+ nat_to_string i +s+ ") " +s+ q_text q] ++
  (match q_options q with [] => [] | opts => opts end) ++
  ["= " +s+ q_answer q; ""].

Fixpoint emit_questions (i : nat) (qs : list question) : M unit :=
  match qs with
  | [] => mret tt
  | q :: r => output_extend (question_lines i q) ≫= fun _ => emit_questions (S i) r
  end.

Definition format_flashquiz (title : string) : M string :=
  new_output ≫= fun _ =>
  output_extend (header_lines title) ≫= fun _ =>
  read_questions ≫= fun questions =>
  emit_questions 1 questions ≫= fun _ =>
  read_output ≫= fun output =>
  mret (join nl output).

(** The text the formatter produces, as a function of its arguments. *)
Fixpoint question_block (i : nat) (qs : list question) : list string :=
  match qs with
  | [] => []
  | q :: r => question_lines i q ++ question_block (S i) r
  end.

Definition flashquiz_text (title : string) (qs : list question) : string :=
  join nl (header_lines title ++ question_block 1 qs).

(* ------------------------------------------------------------------ *)
(** ** extract_all_image_occurrences (lines 27-57)                     *)

(** An entry of a page's [/XObject] dictionary: its [/Subtype], and the
    outcome of [obj.get_data()] ([None] when that call raises). *)
Record xobject := { xo_subtype : string; xo_data : option (list Byte.byte) }.

(** A content-stream operation [(operands, operator)]; operands are
    represented by their names. *)
Definition operation : Type := list string * string.

(** What [page.get_contents()] and [ContentStream(contents, reader)]
    give for a page: no contents ([None]), a stream whose parsing raises,
    or its list of operations. *)
Inductive page_contents :=
| NoContents
| BadStream
| Ops (ops : list operation).


(** A page as the PDF library presents it: the result of
    [page.extract_text()], the entries of its [/XObject] resources in
    dictionary order, and its content stream. *)
Record pdf_page := {
  pg_text : option string;
  pg_xobjects : list (string * xobject);
  pg_contents : page_contents
}.

(** Lines 34-38: the dict [images] of the page's image XObjects; a later
    entry under the same name replaces an earlier one. *)
Definition page_images (xobjects : list (string * xobject)) : gmap string xobject :=
  fold_left (fun images '(name, obj) =>
               if String.eqb (xo_subtype obj) "/Image" then <[name := obj]> images else images)
            xobjects ∅.

(** Lines 45-53 for page [i]: the occurrences appended, and whether the
    loop was left by an exception ([operands[0]] of an operand-less [Do],
    or [obj.get_data()] raising), which the [except] of line 54 catches. *)
Fixpoint page_ops (i : nat) (images : gmap string xobject) (ops : list operation)
    : list image_occ * bool :=
  match ops with
  | [] => ([], false)
  | (operands, operator) :: r =>
      if String.eqb operator "Do" then
        match operands with
        | [] => ([], true)
        | name :: _ =>
            match images !! name with
            | None => page_ops i images r
            | Some obj =>
                match xo_data obj with
                | None => ([], true)
                | Some data =>
                    match get_image_base64_from_data data name with
                    | Some b64 =>
                        if String.eqb b64 EmptyString then page_ops i images r
                        else let '(occ, failed) := page_ops i images r in
                             ({| img_page := i; img_b64 := b64 |} :: occ, failed)
                    | None => page_ops i images r
                    end
                end
            end
        end
      else page_ops i images r
  end.

(** Lines 33-55 for page [i]. *)
Definition page_occurrences (i : nat) (pg : pdf_page) : list image_occ * bool :=
  let images := page_images (pg_xobjects pg) in
  match pg_contents pg with
  | NoContents => ([], false)
  | BadStream => ([], true)
  | Ops ops => page_ops i images ops
  end.

(** Lines 32-55 from page [i] on: the occurrences, and the page numbers
    [i+1] of the warnings printed on stderr. *)
Fixpoint extract_pages (i : nat) (pages : list pdf_page) : list image_occ * list nat :=
  match pages with
  | [] => ([], [])
  | pg :: r =>
      let '(occ, failed) := page_occurrences i pg in
      let '(occs, warned) := extract_pages (S i) r in
      ((occ ++ occs)%list, if failed then S i :: warned else warned)
  end.

Definition extract_all_image_occurrences (pages : list pdf_page) : list image_occ :=
  fst (extract_pages 0 pages).

(* ------------------------------------------------------------------ *)
(** ** The conversion of a document (lines 215-226, 272-273)           *)

(** [page.extract_text() or ""]. *)
Definition page_text (pg : pdf_page) : string :=
  match pg_text pg with
  | Some t => t
  | None => EmptyString
  end.

(** [parse_vce_pdf(pdf_path)] on the document's pages. *)
Definition parse_pdf (pages : list pdf_page) : string * list question :=
  parse_vce_pdf (map page_text pages) (extract_all_image_occurrences pages).

(** [format_flashquiz(title, questions)] after [parse_vce_pdf]: the text
    [process_pdf] writes or prints. *)
Definition convert_pdf (pages : list pdf_page) : string :=
  let '(title, questions) := parse_pdf pages in
  fst (format_flashquiz title {| st_questions := questions; st_output := [] |}).

(* ------------------------------------------------------------------ *)
(** ** Readers used to state properties of the encoders                *)

(** Reading a decimal numeral, left to right. *)
Fixpoint read_decimal (s : string) (acc : nat) : option nat :=
  match s with
  | EmptyString => Some acc
  | String c r => if is_digit c then read_decimal r (acc * 10 + (code c - 48)) else None
  end.

(** The position of a character in [b64_alphabet]. *)
Fixpoint index_of (c : ascii) (s : string) (n : N) : option N :=
  match s with
  | EmptyString => None
  | String d r => if Ascii.eqb c d then Some n else index_of c r (N.succ n)
  end.

Definition b64_index (c : ascii) : option N := index_of c b64_alphabet 0.

Definition byte_of (n : N) : option Byte.byte := Byte.of_N n.

(** A base64 decoder (standard alphabet, with padding). *)
Fixpoint b64decode (s : string) : option (list Byte.byte) :=
  match s with
  | EmptyString => Some []
  | String c1 (String c2 (String c3 (String c4 r))) =>
      match b64_index c1, b64_index c2 with
      | Some s1, Some s2 =>
          x ← byte_of (N.lor (N.shiftl s1 2) (N.shiftr s2 4));
          if Ascii.eqb c3 "=" && Ascii.eqb c4 "=" && String.eqb r EmptyString then Some [x]
          else
            s3 ← b64_index c3;
            y ← byte_of (N.land (N.lor (N.shiftl s2 4) (N.shiftr s3 2)) 255);
            if Ascii.eqb c4 "=" && String.eqb r EmptyString then Some [x; y]
            else
              s4 ← b64_index c4;
              z ← byte_of (N.land (N.lor (N.shiftl s3 6) s4) 255);
              rest ← b64decode r;
              Some (x :: y :: z :: rest)
      | _, _ => None
      end
  | _ => None
  end.

(** The leftmost non-overlapping matches of [QUESTION\s+\d+] in [ft]
    from position [p] on, as (start, end) pairs: the search for the next
    match starts where the previous one ended. *)
Inductive leftmost_matches (ft : string) : nat -> list (nat * nat) -> Prop :=
| lm_none p :
    (forall j, p <= j -> match_question_at (str_drop j ft) = None) ->
    leftmost_matches ft p []
| lm_next p st en rest :
    p <= st ->
    (forall j, p <= j < st -> match_question_at (str_drop j ft) = None) ->
    match_question_at (str_drop st ft) = Some (en - st) ->
    st < en <= String.length ft ->
    leftmost_matches ft en rest ->
    leftmost_matches ft p ((st, en) :: rest).

(* ------------------------------------------------------------------ *)
(** ** Auxiliary definitions for the properties                       *)

(** "[r] is the largest page index whose recorded start offset is at
    most [x], or 0 when there is no such page." *)
Definition is_last_page_le (po : list (nat * nat)) (x r : nat) : Prop :=
  (exists off, In (off, r) po /\ off <= x /\
     forall off' p, In (off', p) po -> off' <= x -> p <= r) \/
  ((forall off' p, In (off', p) po -> x < off') /\ r = 0).

(** One component of the loop of lines 94-96. *)
Definition last_le (po : list (nat * nat)) (x init : nat) : nat :=
  fold_left (fun acc '(offset, page_idx) => if offset <=? x then page_idx else acc) po init.

(** The fields of a span after line classification. *)
Definition span_fields (ft : string) (span : nat * nat) : cls :=
  classify (clean_first (span_lines (substring (fst span) (snd span - fst span) ft))).

(** The in-span indices as C1 words them: the indices of the image
    occurrences whose page lies in [sp, ep], in order. *)
Definition spec_in_span (imgs : list image_occ) (sp ep : nat) : list nat :=
  List.filter (fun idx => match imgs !! idx with
                     | Some img => (sp <=? img_page img) && (img_page img <=? ep)
                     | None => false
                     end) (seq 0 (length imgs)).

(** The walk as C1 words it: over the in-span indices, [hw] the
    high-water mark and [acc] the data assigned during this pass. *)
Inductive exhibit_pass (imgs : list image_occ) : list nat -> Z -> list string -> Z -> list string -> Prop :=
| pass_done hw acc : exhibit_pass imgs [] hw acc hw acc
| pass_consumed idx r hw acc hw' acc' :
    (Z.of_nat idx <= hw)%Z ->
    exhibit_pass imgs r hw acc hw' acc' ->
    exhibit_pass imgs (idx :: r) hw acc hw' acc'
| pass_duplicate idx r hw acc hw' acc' :
    (hw < Z.of_nat idx)%Z -> In (b64_at imgs idx) acc ->
    exhibit_pass imgs r (Z.of_nat idx) acc hw' acc' ->
    exhibit_pass imgs (idx :: r) hw acc hw' acc'
| pass_assign idx r hw acc hw' acc' :
    (hw < Z.of_nat idx)%Z -> ~ In (b64_at imgs idx) acc ->
    exhibit_pass imgs r (Z.of_nat idx) (acc ++ [b64_at imgs idx]) hw' acc' ->
    exhibit_pass imgs (idx :: r) hw acc hw' acc'.

(** The markdown references appended to the body, in assignment order. *)
Definition exhibit_refs (assigned : list string) : string :=
  fold_right (fun b64 t => exhibit_ref b64 +s+ t) EmptyString assigned.

(** The fallback as C1 words it. *)
Definition spec_fallback (imgs : list image_occ) (idxs : list nat) (acc : list string)
    : list string :=
  match acc with
  | [] => match idxs with [] => [] | _ :: _ => [b64_at imgs (List.last idxs 0)] end
  | _ :: _ => acc
  end.

(** The set [seen_b64] holds exactly the data assigned so far. *)
Definition seen_is_assigned (w : walk) : Prop :=
  forall x, x ∈ seen_b64 w <-> In x (assigned_images w).

(** A question on page 0 that mentions an exhibit, two identical images
    on its page and one on the next page. *)
Definition exhibit_doc : list string := ["QUESTION 1 See the Exhibit."; "Correct Answer: A"].

Definition exhibit_imgs : list image_occ :=
  [{| img_page := 0; img_b64 := "i0" |}; {| img_page := 0; img_b64 := "i0" |};
   {| img_page := 1; img_b64 := "i1" |}].

Definition chars (s : string) : list ascii := list_ascii_of_string s.

Definition no_nl (s : string) : Prop := ~ In "010"%char (chars s).

(** What [classify] keeps about its option entries. *)
Definition good_option (o : string) : Prop := is_option_line o = true /\ no_nl o.

(** The text of an option line as the claims word it: the line without
    its leading "X." prefix, trimmed and lowercased. *)
Definition option_text (opt : string) : string := lower (strip (str_drop 2 opt)).

(** Exactly two options, whose texts are "true" and "false" in some order. *)
Definition tf_option_texts (opts : list string) : Prop :=
  map option_text opts = ["true"; "false"] \/ map option_text opts = ["false"; "true"].

(** An option reformatted as "<lowercase letter>) <text>". *)
Definition reformat_option (opt : string) : string :=
  match opt with
  | String l _ => String (lower_char l) EmptyString +s+ ") " +s+ strip (str_drop 2 opt)
  | EmptyString => EmptyString
  end.

(** The answer C3 describes for a true/false question: "true" if the
    first extracted answer letter is "a", "false" otherwise. *)
Definition claimed_tf_answer (letters : list string) : string :=
  match letters with
  | a :: _ => if String.eqb a "a" then "true" else "false"
  | [] => "false"
  end.

(** A true/false question whose answer line carries no uppercase letter. *)
Definition tf_doc : list string :=
  [join nl ["QUESTION 1 Is it?"; "A. True"; "B. False"; "Correct Answer: true"]].

(** A multi-answer question. *)
Definition multi_doc : list string :=
  [join nl ["QUESTION 2 Pick two."; "A. one"; "B. two"; "C. three"; "D. four";
            "Correct Answer: B, D"]].

(** An answer line without any uppercase letter, on a question that has
    no body line: the marker line is the whole first line. *)
Definition bodyless_doc : list string := [join nl ["QUESTION 1"; "Correct Answer: true"]].

(** A question with a body and the answer line "Correct Answer: true". *)
Definition lowercase_doc : list string :=
  [join nl ["QUESTION 1 Is it?"; "A. yes"; "B. no"; "C. maybe"; "Correct Answer: true"]].

(** A JPEG image XObject, a form XObject, and an image whose
    [get_data()] raises. *)
Definition jpeg_bytes : list Byte.byte := [Byte.xff; Byte.xd8; Byte.xff; Byte.xe0].

Definition jpeg_image : xobject := {| xo_subtype := "/Image"; xo_data := Some jpeg_bytes |}.

Definition form_xobject : xobject := {| xo_subtype := "/Form"; xo_data := Some [] |}.

Definition broken_image : xobject := {| xo_subtype := "/Image"; xo_data := None |}.

(** A page that draws its image twice and a form once. *)
Definition image_page : pdf_page :=
  {| pg_text := Some "Sample exam";
     pg_xobjects := [("/Im1", jpeg_image); ("/Fm1", form_xobject)];
     pg_contents := Ops [(["/Im1"], "Do"); (["/Fm1"], "Do"); ([], "BT"); (["/Im1"], "Do")] |}.

(** A page whose stream cannot be parsed. *)
Definition bad_stream_page : pdf_page :=
  {| pg_text := None; pg_xobjects := []; pg_contents := BadStream |}.

(** A page that draws an image, then an image whose data cannot be read,
    then the first image again. *)
Definition broken_data_page : pdf_page :=
  {| pg_text := Some (join nl ["QUESTION 1 See the Exhibit."; "Correct Answer: A"]);
     pg_xobjects := [("/Im1", jpeg_image); ("/Im2", broken_image)];
     pg_contents := Ops [(["/Im1"], "Do"); (["/Im2"], "Do"); (["/Im1"], "Do")] |}.

Definition sample_pages : list pdf_page := [image_page; bad_stream_page; broken_data_page].

(** A document with text and no question marker. *)
Definition marker_free_pages : list pdf_page :=
  [{| pg_text := Some "Just text"; pg_xobjects := []; pg_contents := NoContents |};
   {| pg_text := None; pg_xobjects := [("/Im1", jpeg_image)];
      pg_contents := Ops [(["/Im1"], "Do")] |}].

(** A choice question whose second option runs over two lines. *)
Definition wrapped_option_text : string :=
  full_text [join nl ["QUESTION 1 Pick one."; "A. red"; "B. light"; "blue";
                      "Correct Answer: B"]].

(* ================================================================== *)
(** * Properties                                                       *)
(* ================================================================== *)

(* ------------------------------------------------------------------ *)
(** ** String lemmas                                                   *)

Lemma str_app_assoc (a b c : string) : (a +s+ b) +s+ c = a +s+ b +s+ c.
Proof. induction a as [|x a IH]; simpl; [reflexivity|]. now rewrite IH. Qed.

Lemma str_app_nil_r (a : string) : a +s+ EmptyString = a.
Proof. induction a as [|x a IH]; simpl; [reflexivity|]. now rewrite IH. Qed.

Lemma prefix_app (a b : string) : String.prefix a (a +s+ b) = true.
Proof.
  induction a as [|x a IH]; simpl; [destruct b; reflexivity|].
  destruct (ascii_dec x x); [exact IH|congruence].
Qed.

(* ------------------------------------------------------------------ *)
(** ** Image data URIs                                                 *)

Lemma data_uri_shape (ext b : string) :
  String.prefix ("data:image/" +s+ ext +s+ ";base64,")
    ("data:image/" +s+ ext +s+ ";base64," +s+ b) = true /\
  "data:image/" +s+ ext +s+ ";base64," +s+ b = ("data:image/" +s+ ext +s+ ";base64,") +s+ b.
Proof.
  assert (Hr : "data:image/" +s+ ext +s+ ";base64," +s+ b
              = ("data:image/" +s+ ext +s+ ";base64,") +s+ b)
    by (rewrite !str_app_assoc; reflexivity).
  rewrite Hr. split; [apply prefix_app | reflexivity].
Qed.

(** C7: whenever [get_image_base64_from_data] returns a result, it is
    [data:image/<ext>;base64,] followed by the base64 encoding of the
    bytes, where [<ext>] comes from the magic bytes FF D8 (jpg),
    89 50 4E 47 (png) or "GIF" (gif), then from the lowercased last
    dot-separated component of the name when it is png, jpg, jpeg or gif,
    and is png otherwise. *)
Theorem image_data_uri_format (data : list Byte.byte) (name : string) (r : string) :
  get_image_base64_from_data data name = Some r ->
  let ext :=
    if bytes_startswith [Byte.xff; Byte.xd8] data then "jpg"
    else if bytes_startswith [Byte.x89; Byte.x50; Byte.x4e; Byte.x47] data then "png"
    else if bytes_startswith [Byte.x47; Byte.x49; Byte.x46] data then "gif"
    else if bool_decide (lower (last_component name) ∈ ["png"; "jpg"; "jpeg"; "gif"])
    then lower (last_component name) else "png" in
  String.prefix ("data:image/" +s+ ext +s+ ";base64,") r = true /\
  r = ("data:image/" +s+ ext +s+ ";base64,") +s+ b64encode data.
Proof.
  intros H. unfold get_image_base64_from_data in H. injection H as <-.
  exact (data_uri_shape _ _).
Qed.

Lemma image_data_uri_format_witness :
  get_image_base64_from_data [Byte.xff; Byte.xd8; Byte.x00] "/Image1"
    = Some "data:image/jpg;base64,/9gA" /\
  String.prefix "data:image/jpg;base64," "data:image/jpg;base64,/9gA" = true /\
  "data:image/jpg;base64,/9gA" = "data:image/jpg;base64," +s+ b64encode [Byte.xff; Byte.xd8; Byte.x00].
Proof.
  split; [reflexivity|].
  exact (image_data_uri_format [Byte.xff; Byte.xd8; Byte.x00] "/Image1"
           "data:image/jpg;base64,/9gA" eq_refl).
Defined.

(* ------------------------------------------------------------------ *)
(** ** Page span of a question                                         *)

Lemma build_text_from_indices (ps : list string) (i off : nat) :
  map snd (snd (build_text_from ps i off)) = seq i (length ps).
Proof.
  revert i off. induction ps as [|p ps IH]; intros i off; simpl; [reflexivity|].
  destruct (build_text_from ps (S i) _) as [rest offs] eqn:E. simpl.
  f_equal. pose proof (f_equal (fun r => map snd (snd r)) E) as E'. simpl in E'.
  rewrite IH in E'. symmetry. exact E'.
Qed.

Lemma page_span_split (po : list (nat * nat)) (a b s0 e0 : nat) :
  fold_left
    (fun '(sp, ep) '(offset, page_idx) =>
       (if offset <=? a then page_idx else sp, if offset <=? b then page_idx else ep))
    po (s0, e0) = (last_le po a s0, last_le po b e0).
Proof.
  revert s0 e0. induction po as [|[off idx] po IH]; intros s0 e0; simpl; [reflexivity|].
  apply IH.
Qed.

Lemma last_le_spec (po : list (nat * nat)) (i x init : nat) :
  map snd po = seq i (length po) ->
  (exists off, In (off, last_le po x init) po /\ off <= x /\
     forall off' p, In (off', p) po -> off' <= x -> p <= last_le po x init) \/
  ((forall off' p, In (off', p) po -> x < off') /\ last_le po x init = init).
Proof.
  revert i init. induction po as [|[off idx] po IH]; intros i init Hidx.
  - right. split; [intros ? ? []|reflexivity].
  - simpl in Hidx. injection Hidx as -> Hidx.
    assert (Hge : forall off' p, In (off', p) po -> S i <= p).
    { intros off' p Hin. apply (in_map snd) in Hin. simpl in Hin.
      rewrite Hidx in Hin. apply in_seq in Hin. lia. }
    simpl. destruct (IH (S i) (if off <=? x then i else init) Hidx)
      as [(off0 & Hin & Hle & Hmax) | [Hnone Heq]].
    + left. exists off0. split; [right; exact Hin|]. split; [exact Hle|].
      intros off' p [Hp | Hp] Hle'.
      * injection Hp as <- <-. specialize (Hge _ _ Hin). lia.
      * exact (Hmax _ _ Hp Hle').
    + rewrite Heq. destruct (Nat.leb_spec off x) as [Hoff | Hoff].
      * left. exists off. split; [left; reflexivity|]. split; [exact Hoff|].
        intros off' p [Hp | Hp] Hle'.
        -- injection Hp as <- <-. lia.
        -- specialize (Hnone _ _ Hp). lia.
      * right. split; [|reflexivity].
        intros off' p [Hp | Hp]; [injection Hp as <- <-; exact Hoff|].
        exact (Hnone _ _ Hp).
Qed.

(** C8: the start (resp. end) page of a span is the largest page index
    whose recorded buffer offset is at most the span's start (resp. end)
    offset, and 0 when no page qualifies. *)
Theorem page_span_last_page (pages : list string) (q_start q_end : nat) :
  let po := page_offsets pages in
  is_last_page_le po q_start (fst (page_span po q_start q_end)) /\
  is_last_page_le po q_end (snd (page_span po q_start q_end)).
Proof.
  cbv zeta. unfold page_span. rewrite page_span_split. simpl.
  assert (Hidx : map snd (page_offsets pages) = seq 0 (length (page_offsets pages))).
  { assert (Hl : length (page_offsets pages) = length pages).
    { rewrite <- (length_map snd). unfold page_offsets.
      rewrite build_text_from_indices. apply length_seq. }
    rewrite Hl. unfold page_offsets. apply build_text_from_indices. }
  split; unfold is_last_page_le; [
    destruct (last_le_spec _ 0 q_start 0 Hidx) as [H | [H1 H2]] |
    destruct (last_le_spec _ 0 q_end 0 Hidx) as [H | [H1 H2]]];
    first [left; exact H | right; split; [exact H1 | exact H2]].
Qed.

(* ------------------------------------------------------------------ *)
(** ** Markers and the quiz title                                      *)

Lemma str_drop_S (c : ascii) (r : string) (k : nat) :
  str_drop (S k) (String c r) = str_drop k r.
Proof. reflexivity. Qed.

Lemma str_drop_0 (s : string) : str_drop 0 s = s.
Proof.
  unfold str_drop. rewrite Nat.sub_0_r.
  induction s as [|c s IH]; simpl; [reflexivity|]. now rewrite IH.
Qed.

Lemma str_drop_empty (k : nat) : str_drop k EmptyString = EmptyString.
Proof. destruct k; reflexivity. Qed.

Lemma scan_markers_nil (s : string) (pos skip : nat) :
  scan_markers s pos skip = [] ->
  forall k, skip <= k -> match_question_at (str_drop k s) = None.
Proof.
  revert pos skip. induction s as [|c r IH]; intros pos skip H k Hk.
  - rewrite str_drop_empty. reflexivity.
  - simpl in H. destruct skip as [|skip].
    + destruct (match_question_at (String c r)) eqn:Em; [discriminate|].
      destruct k as [|k]; [rewrite str_drop_0; exact Em|].
      rewrite str_drop_S. apply (IH _ _ H). lia.
    + destruct k as [|k]; [lia|]. rewrite str_drop_S. apply (IH _ _ H). lia.
Qed.

Lemma scan_markers_cons (s : string) (pos skip st en : nat) rest :
  scan_markers s pos skip = (st, en) :: rest ->
  pos + skip <= st /\
  match_question_at (str_drop (st - pos) s) = Some (en - st) /\
  forall k, skip <= k < st - pos -> match_question_at (str_drop k s) = None.
Proof.
  revert pos skip. induction s as [|c r IH]; intros pos skip H; [discriminate|].
  simpl in H. destruct skip as [|skip].
  - destruct (match_question_at (String c r)) as [len|] eqn:Em.
    + injection H as <- <- _. rewrite Nat.sub_diag, str_drop_0.
      split; [lia|]. split; [rewrite Em; f_equal; lia|]. intros k Hk; lia.
    + destruct (IH _ _ H) as (Hle & Hm & Hnone).
      split; [lia|].
      replace (st - pos) with (S (st - S pos)) by lia. rewrite str_drop_S.
      split; [exact Hm|].
      intros [|k] Hk; [rewrite str_drop_0; exact Em|].
      rewrite str_drop_S. apply Hnone. lia.
  - destruct (IH _ _ H) as (Hle & Hm & Hnone).
    split; [lia|].
    replace (st - pos) with (S (st - S pos)) by lia. rewrite str_drop_S.
    split; [exact Hm|].
    intros [|k] Hk; [lia|]. rewrite str_drop_S. apply Hnone. lia.
Qed.

(** [finditer] finds nothing exactly when no position of the buffer
    starts a match. *)
Lemma finditer_question_nil_iff (s : string) :
  finditer_question s = [] <-> forall k, match_question_at (str_drop k s) = None.
Proof.
  split.
  - intros H k. apply (scan_markers_nil _ _ _ H). lia.
  - intros H. unfold finditer_question.
    destruct (scan_markers s 0 0) as [|[st en] rest] eqn:E; [reflexivity|].
    destruct (scan_markers_cons _ _ _ _ _ _ E) as (_ & Hm & _).
    rewrite H in Hm. discriminate.
Qed.

(** The first element of [finditer] is the earliest match. *)
Lemma finditer_question_first (s : string) (st len : nat) :
  match_question_at (str_drop st s) = Some len ->
  (forall k, k < st -> match_question_at (str_drop k s) = None) ->
  exists en rest, finditer_question s = (st, en) :: rest.
Proof.
  intros Hm Hbefore. unfold finditer_question.
  destruct (scan_markers s 0 0) as [|[st' en] rest] eqn:E.
  - rewrite (scan_markers_nil _ _ _ E st ltac:(lia)) in Hm. discriminate.
  - destruct (scan_markers_cons _ _ _ _ _ _ E) as (_ & Hm' & Hnone).
    rewrite Nat.sub_0_r in Hm', Hnone.
    destruct (Nat.lt_trichotomy st st') as [Hlt | [-> | Hgt]].
    + rewrite (Hnone st ltac:(lia)) in Hm. discriminate.
    + exists en, rest. reflexivity.
    + rewrite (Hbefore st' Hgt) in Hm'. discriminate.
Qed.

Lemma split_char_head (s : string) :
  hd EmptyString (split_char "010" s) = take_line s.
Proof.
  induction s as [|c s IH]; simpl; [reflexivity|].
  destruct (Ascii.eqb c "010") eqn:E; [reflexivity|].
  destruct (split_char "010" s) as [|p ps]; simpl in *; congruence.
Qed.

Lemma split_char_not_nil (ch : ascii) (s : string) : split_char ch s <> [].
Proof.
  induction s as [|c s IH]; simpl; [discriminate|].
  destruct (Ascii.eqb c ch); [discriminate|]. destruct (split_char ch s); discriminate.
Qed.

Lemma parse_vce_pdf_title (pages : list string) (imgs : list image_occ) :
  fst (parse_vce_pdf pages imgs) = quiz_title (full_text pages) (finditer_question (full_text pages)).
Proof.
  unfold parse_vce_pdf.
  destruct (process_spans _ _ _ _ _) as [l qs]. reflexivity.
Qed.

(** C6: with no match of [QUESTION\s+\d+] in the buffer, the question
    list is empty and the title is the default.  With a first match at
    [st], the title is the trimmed first line of the trimmed text before
    [st] when that text is non-empty, and the default otherwise. *)
Theorem title_and_no_markers :
  (forall (pages : list string) (imgs : list image_occ),
     (forall k, match_question_at (str_drop k (full_text pages)) = None) ->
     parse_vce_pdf pages imgs = (default_title, [])) /\
  (forall (pages : list string) (imgs : list image_occ) (st len : nat),
     match_question_at (str_drop st (full_text pages)) = Some len ->
     (forall k, k < st -> match_question_at (str_drop k (full_text pages)) = None) ->
     let header := strip (substring 0 st (full_text pages)) in
     fst (parse_vce_pdf pages imgs) =
       if String.eqb header EmptyString then default_title
       else strip (take_line header)).
Proof.
  split.
  - intros pages imgs Hnone.
    apply finditer_question_nil_iff in Hnone.
    unfold parse_vce_pdf. rewrite Hnone. reflexivity.
  - intros pages imgs st len Hm Hbefore. cbv zeta.
    rewrite parse_vce_pdf_title.
    destruct (finditer_question_first _ _ _ Hm Hbefore) as (en & rest & ->).
    simpl. destruct (String.eqb _ EmptyString); [reflexivity|].
    rewrite <- split_char_head.
    destruct (split_char "010" _) as [|l ls] eqn:E; [|reflexivity].
    exfalso. exact (split_char_not_nil _ _ E).
Qed.

Lemma title_and_no_markers_witness :
  (forall k, match_question_at (str_drop k (full_text ["Just text"])) = None) /\
  parse_vce_pdf ["Just text"] [] = (default_title, []) /\
  match_question_at (str_drop 18 (full_text ["  My Quiz  "; "line2"; "QUESTION 1 What?"])) = Some 10 /\
  fst (parse_vce_pdf ["  My Quiz  "; "line2"; "QUESTION 1 What?"] []) =
    (let header := strip (substring 0 18 (full_text ["  My Quiz  "; "line2"; "QUESTION 1 What?"])) in
     if String.eqb header EmptyString then default_title else strip (take_line header)).
Proof.
  assert (H1 : forall k, match_question_at (str_drop k (full_text ["Just text"])) = None).
  { apply finditer_question_nil_iff. vm_compute. reflexivity. }
  assert (H2 : match_question_at
                 (str_drop 18 (full_text ["  My Quiz  "; "line2"; "QUESTION 1 What?"])) = Some 10)
    by reflexivity.
  split; [exact H1|]. split; [exact (proj1 title_and_no_markers _ [] H1)|].
  split; [exact H2|].
  apply (proj2 title_and_no_markers _ [] 18 10 H2).
  intros k Hk. do 18 (destruct k as [|k]; [reflexivity|]). lia.
Defined.

(* ------------------------------------------------------------------ *)
(** ** Malformed questions                                             *)

(** C5: a span whose body lines are empty or whose raw answer string is
    empty adds no question and leaves the loop state as it was, so the
    remaining spans are processed as if it were absent. *)
Theorem malformed_span_dropped (imgs : list image_occ) (po : list (nat * nat)) (ft : string)
    (st : parse_state) (span : nat * nat) :
  question_text_lines (span_fields ft span) = [] \/
  correct_answer_str (span_fields ft span) = EmptyString ->
  process_span imgs po ft st span = st /\
  forall rest, process_spans imgs po ft (span :: rest) st = process_spans imgs po ft rest st.
Proof.
  intros H.
  assert (Hst : process_span imgs po ft st span = st).
  { destruct st as [last questions], span as [q_start q_end].
    unfold span_fields in H. simpl in H. unfold process_span.
    destruct (page_span po q_start q_end) as [sp ep].
    destruct (span_lines _) as [|l ls]; [reflexivity|].
    destruct H as [H | H]; rewrite H; [reflexivity|].
    rewrite orb_true_r. reflexivity. }
  split; [exact Hst|]. intros rest. unfold process_spans. simpl. rewrite Hst. reflexivity.
Qed.

Lemma malformed_span_dropped_witness :
  let ft := full_text [join nl ["QUESTION 1"; "Correct Answer: true"]] in
  (question_text_lines (span_fields ft (0, String.length ft)) = [] \/
   correct_answer_str (span_fields ft (0, String.length ft)) = EmptyString) /\
  process_span [] (page_offsets [join nl ["QUESTION 1"; "Correct Answer: true"]]) ft
    ((-1)%Z, []) (0, String.length ft) = ((-1)%Z, []) /\
  forall rest, process_spans [] (page_offsets [join nl ["QUESTION 1"; "Correct Answer: true"]]) ft
    ((0, String.length ft) :: rest) ((-1)%Z, []) =
    process_spans [] (page_offsets [join nl ["QUESTION 1"; "Correct Answer: true"]]) ft
    rest ((-1)%Z, []).
Proof.
  intros ft.
  assert (H : question_text_lines (span_fields ft (0, String.length ft)) = [] \/
              correct_answer_str (span_fields ft (0, String.length ft)) = EmptyString)
    by (left; vm_compute; reflexivity).
  split; [exact H|]. exact (malformed_span_dropped _ _ _ _ _ H).
Defined.

(* ------------------------------------------------------------------ *)
(** ** Exhibit assignment                                              *)

Lemma in_span_from_shift (imgs : list image_occ) (i sp ep : nat) :
  in_span_from imgs i sp ep = map (Nat.add i) (in_span_from imgs 0 sp ep).
Proof.
  revert i. induction imgs as [|img r IH]; intros i; simpl; [reflexivity|].
  rewrite (IH (S i)), (IH 1).
  destruct (_ && _); simpl; rewrite ?map_map; [rewrite Nat.add_0_r; f_equal|];
    apply map_ext; intros; lia.
Qed.

Lemma spec_in_span_cons (img : image_occ) (r : list image_occ) (sp ep : nat) :
  spec_in_span (img :: r) sp ep =
  ((if (sp <=? img_page img) && (img_page img <=? ep) then [0] else []) ++
   map S (spec_in_span r sp ep))%list.
Proof.
  unfold spec_in_span. simpl length.
  change (seq 0 (S (length r))) with (0 :: seq 1 (length r)).
  rewrite <- seq_shift. cbn [List.filter]. rewrite filter_map_swap. simpl.
  destruct (_ && _); reflexivity.
Qed.

Lemma images_in_span_indices_spec (imgs : list image_occ) (sp ep : nat) :
  images_in_span_indices imgs sp ep = spec_in_span imgs sp ep.
Proof.
  unfold images_in_span_indices.
  induction imgs as [|img r IH]; [reflexivity|].
  rewrite spec_in_span_cons. simpl. rewrite in_span_from_shift, IH.
  destruct (_ && _); reflexivity.
Qed.

Lemma exhibit_walk_pass (imgs : list image_occ) (idxs : list nat) (w : walk) :
  seen_is_assigned w ->
  exhibit_pass imgs idxs (last_image_idx_used w) (assigned_images w)
    (last_image_idx_used (fold_left (walk_step imgs) idxs w))
    (assigned_images (fold_left (walk_step imgs) idxs w)).
Proof.
  revert w. induction idxs as [|idx r IH]; intros w Hw; simpl; [constructor|].
  remember (walk_step imgs w idx) as w' eqn:Ew. unfold walk_step in Ew.
  destruct (Z.ltb_spec (last_image_idx_used w) (Z.of_nat idx)) as [Hlt | Hge].
  - case_bool_decide as Hin; subst w'.
    + apply pass_duplicate; [exact Hlt | apply Hw; exact Hin |].
      apply (IH {| last_image_idx_used := Z.of_nat idx; assigned_images := assigned_images w;
                   seen_b64 := seen_b64 w |}). exact Hw.
    + apply pass_assign; [exact Hlt | intros Hc; apply Hin, Hw, Hc |].
      apply (IH {| last_image_idx_used := Z.of_nat idx;
                   assigned_images := assigned_images w ++ [b64_at imgs idx];
                   seen_b64 := {[ b64_at imgs idx ]} ∪ seen_b64 w |}).
      intros x. simpl. rewrite elem_of_union, elem_of_singleton, (Hw x), in_app_iff.
      simpl. intuition.
  - subst w'. apply pass_consumed; [exact Hge|]. apply IH. exact Hw.
Qed.

Lemma append_exhibits_refs (t : string) (assigned : list string) :
  append_exhibits t assigned = t +s+ exhibit_refs assigned.
Proof.
  unfold append_exhibits. revert t.
  induction assigned as [|b r IH]; intros t; simpl; [symmetry; apply str_app_nil_r|].
  rewrite IH, str_app_assoc. reflexivity.
Qed.

Lemma with_fallback_spec (imgs : list image_occ) (idxs : list nat) (acc : list string) :
  with_fallback imgs idxs acc = spec_fallback imgs idxs acc.
Proof. destruct acc, idxs; reflexivity. Qed.

Lemma build_question_text (t : string) (opts : list string) (correct : string) :
  q_text (build_question t opts correct) = t.
Proof. unfold build_question. destruct (is_tf opts); reflexivity. Qed.

(** A span with body lines and an answer string adds exactly one
    question, built from its exhibit-augmented text. *)
Lemma process_span_kept (imgs : list image_occ) (po : list (nat * nat)) (ft : string)
    (last : Z) (qs : list question) (span : nat * nat) :
  question_text_lines (span_fields ft span) <> [] ->
  correct_answer_str (span_fields ft span) <> EmptyString ->
  process_span imgs po ft (last, qs) span =
  (snd (assign_exhibits imgs (fst (page_span po (fst span) (snd span)))
          (snd (page_span po (fst span) (snd span))) last
          (join " " (question_text_lines (span_fields ft span)))),
   (qs ++ [build_question
             (fst (assign_exhibits imgs (fst (page_span po (fst span) (snd span)))
                     (snd (page_span po (fst span) (snd span))) last
                     (join " " (question_text_lines (span_fields ft span)))))
             (options (span_fields ft span)) (correct_answer_str (span_fields ft span))])%list).
Proof.
  destruct span as [a b]. unfold process_span, span_fields. cbn [fst snd].
  destruct (page_span po a b) as [sp ep]. cbn [fst snd].
  destruct (span_lines _) as [|l ls] eqn:E.
  - intros H. simpl in H. congruence.
  - set (c := classify (clean_first (l :: ls))). intros Hbody Hans.
    destruct (question_text_lines c) as [|x xs]; [congruence|].
    destruct (String.eqb_spec (correct_answer_str c) EmptyString) as [Heq | _]; [congruence|].
    simpl. destruct (assign_exhibits _ _ _ _ _). reflexivity.
Qed.

(** C1: for a kept question whose body mentions "exhibit" in any case,
    the indices of the occurrences on the question's pages are walked in
    order as [exhibit_pass] describes (skip what is at or below the
    high-water mark; above it, assign unless the same data was already
    assigned in this pass, and move the mark to the index either way);
    if nothing was assigned but the list is non-empty, the last in-span
    occurrence alone is assigned, the mark being the one the walk left;
    the question's text is its body followed by one markdown reference
    per assigned image, in order. *)
Theorem exhibit_assignment (imgs : list image_occ) (po : list (nat * nat)) (ft : string)
    (last : Z) (qs : list question) (span : nat * nat) :
  let c := span_fields ft span in
  let idxs := spec_in_span imgs (fst (page_span po (fst span) (snd span)))
                (snd (page_span po (fst span) (snd span))) in
  question_text_lines c <> [] ->
  correct_answer_str c <> EmptyString ->
  contains "exhibit" (lower (join " " (question_text_lines c))) = true ->
  exists hw' acc q,
    exhibit_pass imgs idxs last [] hw' acc /\
    process_span imgs po ft (last, qs) span = (hw', (qs ++ [q])%list) /\
    q_text q = join " " (question_text_lines c) +s+ exhibit_refs (spec_fallback imgs idxs acc).
Proof.
  intros c idxs Hbody Hans Hex.
  rewrite (process_span_kept _ _ _ _ _ _ Hbody Hans).
  unfold assign_exhibits. fold c. rewrite Hex. simpl.
  rewrite images_in_span_indices_spec. fold idxs.
  set (w0 := {| last_image_idx_used := last; assigned_images := []; seen_b64 := ∅ |}).
  exists (last_image_idx_used (fold_left (walk_step imgs) idxs w0)),
         (assigned_images (fold_left (walk_step imgs) idxs w0)).
  eexists. split; [|split; [reflexivity|]].
  - apply (exhibit_walk_pass imgs idxs w0). intros x. simpl. set_solver.
  - rewrite build_question_text, append_exhibits_refs, with_fallback_spec. reflexivity.
Qed.

Lemma exhibit_assignment_witness :
  let ft := full_text exhibit_doc in
  let po := page_offsets exhibit_doc in
  let span := (0, String.length ft) in
  let c := span_fields ft span in
  let idxs := spec_in_span exhibit_imgs (fst (page_span po (fst span) (snd span)))
                (snd (page_span po (fst span) (snd span))) in
  question_text_lines c <> [] /\
  correct_answer_str c <> EmptyString /\
  contains "exhibit" (lower (join " " (question_text_lines c))) = true /\
  exists hw' acc q,
    exhibit_pass exhibit_imgs idxs (-1)%Z [] hw' acc /\
    process_span exhibit_imgs po ft ((-1)%Z, []) span = (hw', ([] ++ [q])%list) /\
    q_text q = join " " (question_text_lines c) +s+ exhibit_refs (spec_fallback exhibit_imgs idxs acc).
Proof.
  intros ft po span c idxs.
  assert (H1 : question_text_lines c <> []) by (vm_compute; discriminate).
  assert (H2 : correct_answer_str c <> EmptyString) by (vm_compute; discriminate).
  assert (H3 : contains "exhibit" (lower (join " " (question_text_lines c))) = true)
    by (vm_compute; reflexivity).
  split; [exact H1|]. split; [exact H2|]. split; [exact H3|].
  exact (exhibit_assignment exhibit_imgs po ft (-1)%Z [] span H1 H2 H3).
Defined.

(** On [exhibit_doc] the duplicate is skipped and the image of the next
    page (inside the span, which ends at the end of the buffer) is
    assigned. *)
Example exhibit_doc_parsed :
  parse_vce_pdf exhibit_doc exhibit_imgs =
  ("VCE Quiz",
   [{| q_type := "@mc";
       q_text := "See the Exhibit." +s+ exhibit_ref "i0" +s+ exhibit_ref "i1";
       q_options := []; q_answer := "a" |}]).
Proof. vm_compute. reflexivity. Qed.

Lemma walk_mono (imgs : list image_occ) (idxs : list nat) (w : walk) :
  (last_image_idx_used w <= last_image_idx_used (fold_left (walk_step imgs) idxs w))%Z.
Proof.
  revert w. induction idxs as [|idx r IH]; intros w; simpl; [lia|].
  etransitivity; [|apply IH]. unfold walk_step.
  destruct (Z.ltb_spec (last_image_idx_used w) (Z.of_nat idx)); [|lia].
  case_bool_decide; simpl; lia.
Qed.

Lemma walk_prefix (imgs : list image_occ) (idxs : list nat) (w : walk) :
  exists l, assigned_images (fold_left (walk_step imgs) idxs w) = (assigned_images w ++ l)%list.
Proof.
  revert w. induction idxs as [|idx r IH]; intros w; simpl.
  - exists []. rewrite app_nil_r. reflexivity.
  - destruct (IH (walk_step imgs w idx)) as [l Hl]. rewrite Hl. unfold walk_step.
    destruct (Z.ltb_spec (last_image_idx_used w) (Z.of_nat idx)); [|exists l; reflexivity].
    case_bool_decide; simpl; [exists l; reflexivity|].
    exists (b64_at imgs idx :: l). rewrite <- app_assoc. reflexivity.
Qed.

Lemma walk_assigned_from (imgs : list image_occ) (idxs : list nat) (w : walk) (b : string) :
  In b (assigned_images (fold_left (walk_step imgs) idxs w)) ->
  In b (assigned_images w) \/
  exists idx, In idx idxs /\
    (last_image_idx_used w < Z.of_nat idx <= last_image_idx_used (fold_left (walk_step imgs) idxs w))%Z /\
    b = b64_at imgs idx.
Proof.
  revert w. induction idxs as [|idx r IH]; intros w H; simpl in *; [left; exact H|].
  pose proof (walk_mono imgs r (walk_step imgs w idx)) as Hm.
  remember (walk_step imgs w idx) as w1 eqn:Ew.
  destruct (IH _ H) as [Hin | (idx' & Hidx' & Hrange & ->)].
  - unfold walk_step in Ew.
    destruct (Z.ltb_spec (last_image_idx_used w) (Z.of_nat idx)) as [Hlt|];
      [|subst w1; left; exact Hin].
    case_bool_decide; subst w1; simpl in Hin, Hm; [left; exact Hin|].
    apply in_app_iff in Hin. destruct Hin as [Hin | [<- | []]]; [left; exact Hin|].
    right. exists idx. split; [left; reflexivity|]. split; [lia|reflexivity].
  - right. exists idx'. split; [right; exact Hidx'|]. split; [|reflexivity].
    unfold walk_step in Ew.
    destruct (Z.ltb_spec (last_image_idx_used w) (Z.of_nat idx)); [|subst w1; lia].
    case_bool_decide; subst w1; simpl in Hrange; lia.
Qed.

Lemma walk_nothing_assigned (imgs : list image_occ) (idxs : list nat) (w : walk) :
  assigned_images w = [] -> seen_b64 w = ∅ ->
  assigned_images (fold_left (walk_step imgs) idxs w) = [] ->
  last_image_idx_used (fold_left (walk_step imgs) idxs w) = last_image_idx_used w.
Proof.
  revert w. induction idxs as [|idx r IH]; intros w Ha Hs Hend; simpl in *; [reflexivity|].
  remember (walk_step imgs w idx) as w1 eqn:Ew. unfold walk_step in Ew.
  destruct (Z.ltb_spec (last_image_idx_used w) (Z.of_nat idx)) as [Hlt|].
  - exfalso. rewrite bool_decide_eq_false_2 in Ew by (rewrite Hs; set_solver).
    subst w1.
    destruct (walk_prefix imgs r
                {| last_image_idx_used := Z.of_nat idx;
                   assigned_images := assigned_images w ++ [b64_at imgs idx];
                   seen_b64 := {[b64_at imgs idx]} ∪ seen_b64 w |}) as [l Hl].
    rewrite Hl in Hend.
    simpl in Hend. rewrite Ha in Hend. discriminate.
  - subst w1. apply IH; assumption.
Qed.

Lemma process_span_mono (imgs : list image_occ) (po : list (nat * nat)) (ft : string)
    (st : parse_state) (span : nat * nat) :
  (fst st <= fst (process_span imgs po ft st span))%Z.
Proof.
  destruct st as [last qs], span as [a b]. unfold process_span.
  destruct (page_span po a b) as [sp ep].
  destruct (span_lines _) as [|l ls]; [simpl; lia|].
  destruct (_ || _); [simpl; lia|].
  unfold assign_exhibits.
  destruct (contains "exhibit" _); simpl; [|lia].
  apply (walk_mono imgs _ {| last_image_idx_used := last; assigned_images := []; seen_b64 := ∅ |}).
Qed.

(** C2: the high-water mark never decreases from one span to the next
    nor over the whole loop; the images a question receives from the walk
    (its non-fallback assignments) come from indices strictly above the
    mark it started from and at most the mark it leaves, so the indices
    consumed by successive questions lie in disjoint intervals; and when
    the walk assigns nothing, the mark is left unchanged, which is the
    only case where the fallback hands out an image. *)
Theorem exhibit_high_water_mark :
  (forall (imgs : list image_occ) (po : list (nat * nat)) (ft : string)
          (st : parse_state) (span : nat * nat),
     (fst st <= fst (process_span imgs po ft st span))%Z) /\
  (forall (imgs : list image_occ) (po : list (nat * nat)) (ft : string)
          (sps : list (nat * nat)) (st : parse_state),
     (fst st <= fst (process_spans imgs po ft sps st))%Z) /\
  (forall (imgs : list image_occ) (sp ep : nat) (last : Z),
     let idxs := images_in_span_indices imgs sp ep in
     let w := exhibit_walk imgs idxs last in
     (last <= last_image_idx_used w)%Z /\
     (forall b, In b (assigned_images w) ->
        exists idx, In idx idxs /\
          (last < Z.of_nat idx <= last_image_idx_used w)%Z /\ b = b64_at imgs idx) /\
     (assigned_images w = [] -> last_image_idx_used w = last)).
Proof.
  split; [exact process_span_mono|]. split.
  - intros imgs po ft sps. unfold process_spans.
    induction sps as [|span r IH]; intros st; simpl; [lia|].
    etransitivity; [apply process_span_mono|apply IH].
  - intros imgs sp ep last idxs w.
    set (w0 := {| last_image_idx_used := last; assigned_images := []; seen_b64 := ∅ |}).
    split; [exact (walk_mono imgs idxs w0)|]. split.
    + intros b Hb. destruct (walk_assigned_from imgs idxs w0 b Hb) as [[] | H]. exact H.
    + intros H. exact (walk_nothing_assigned imgs idxs w0 eq_refl eq_refl H).
Qed.

Lemma exhibit_high_water_mark_witness :
  let idxs := images_in_span_indices exhibit_imgs 0 1 in
  let w := exhibit_walk exhibit_imgs idxs (-1)%Z in
  In "i1" (assigned_images w) /\
  exists idx, In idx idxs /\
    ((-1) < Z.of_nat idx <= last_image_idx_used w)%Z /\ "i1" = b64_at exhibit_imgs idx.
Proof.
  intros idxs w.
  assert (H : In "i1" (assigned_images w)) by (vm_compute; right; left; reflexivity).
  split; [exact H|].
  exact (proj1 (proj2 ((proj2 (proj2 exhibit_high_water_mark)) exhibit_imgs 0 1 (-1)%Z)) "i1" H).
Defined.

(* ------------------------------------------------------------------ *)
(** ** Option lines carry no newline                                   *)

Lemma chars_app (a b : string) : chars (a +s+ b) = (chars a ++ chars b)%list.
Proof. induction a as [|c a IH]; simpl; [reflexivity|]. unfold chars in *. simpl. now rewrite IH. Qed.

Lemma chars_lstrip (s : string) (x : ascii) : In x (chars (lstrip s)) -> In x (chars s).
Proof.
  induction s as [|c s IH]; simpl; [tauto|].
  destruct (is_space c); [intros H; right; apply IH, H | tauto].
Qed.

Lemma chars_rev_str (s acc : string) (x : ascii) :
  In x (chars (rev_str s acc)) <-> In x (chars s) \/ In x (chars acc).
Proof.
  revert acc. induction s as [|c s IH]; intros acc; simpl; [tauto|].
  rewrite IH. unfold chars. simpl. tauto.
Qed.

Lemma chars_strip (s : string) (x : ascii) : In x (chars (strip s)) -> In x (chars s).
Proof.
  unfold strip, rstrip. intros H.
  apply chars_rev_str in H. destruct H as [H | []].
  apply chars_lstrip in H. apply chars_rev_str in H. destruct H as [H | []].
  apply chars_lstrip, H.
Qed.

Lemma chars_substring (n m : nat) (s : string) (x : ascii) :
  In x (chars (substring n m s)) -> In x (chars s).
Proof.
  revert n m. induction s as [|c s IH]; intros n m; destruct n, m; simpl; try tauto.
  - intros [H | H]; [left; exact H | right; exact (IH 0 m H)].
  - intros H. right. exact (IH n 0 H).
  - intros H. right. exact (IH n (S m) H).
Qed.

Lemma split_char_no_sep (ch : ascii) (s p : string) :
  In p (split_char ch s) -> ~ In ch (chars p).
Proof.
  revert p. induction s as [|c s IH]; intros p; simpl.
  - intros [<- | []]. simpl. tauto.
  - destruct (Ascii.eqb_spec c ch) as [-> | Hne].
    + intros [<- | Hp]; [simpl; tauto | exact (IH _ Hp)].
    + destruct (split_char ch s) as [|q qs] eqn:E.
      * intros [<- | []]. unfold chars. simpl. intros [H | []]. congruence.
      * intros [<- | Hp].
        -- unfold chars. simpl. intros [H | H]; [congruence|].
           apply (IH q); [left; reflexivity | exact H].
        -- apply IH. right. exact Hp.
Qed.

Lemma span_lines_no_nl (part l : string) : In l (span_lines part) -> no_nl l.
Proof.
  unfold span_lines. rewrite filter_In, in_map_iff. intros [(p & <- & Hp) _].
  intros H. apply chars_strip in H. exact (split_char_no_sep _ _ _ Hp H).
Qed.

Lemma clean_first_no_nl (ls : list string) :
  (forall l, In l ls -> no_nl l) -> forall l, In l (clean_first ls) -> no_nl l.
Proof.
  destruct ls as [|l0 ls]; simpl; [tauto|]. intros Hall l.
  destruct (String.eqb _ EmptyString); [intros H; apply Hall; right; exact H|].
  intros [<- | H]; [|apply Hall; right; exact H].
  intros Hn. apply chars_strip in Hn. unfold sub_question_marker in Hn.
  destruct (match_question_at l0).
  - apply chars_lstrip, chars_substring in Hn. exact (Hall l0 (or_introl eq_refl) Hn).
  - exact (Hall l0 (or_introl eq_refl) Hn).
Qed.

Lemma append_last_in (xs : list string) (line o : string) :
  In o (append_last xs line) -> In o xs \/ exists x, In x xs /\ o = x +s+ " " +s+ line.
Proof.
  induction xs as [|x [|y r] IH]; simpl; [tauto| |].
  - intros [<- | []]. right. exists x. split; [left|]; reflexivity.
  - intros [<- | H]; [left; left; reflexivity|].
    destruct (IH H) as [H' | (z & Hz & ->)]; [left; right; exact H'|].
    right. exists z. split; [right; exact Hz | reflexivity].
Qed.

Lemma good_option_extend (x line : string) :
  good_option x -> no_nl line -> good_option (x +s+ " " +s+ line).
Proof.
  intros [Hopt Hnl] Hl. split.
  - destruct x as [|c [|d r]]; try discriminate. exact Hopt.
  - unfold no_nl. rewrite !chars_app. rewrite !in_app_iff. unfold chars at 2. simpl.
    intros [H | [[H | []] | H]]; [exact (Hnl H) | discriminate | exact (Hl H)].
Qed.

Lemma classify_good_options (lines : list string) :
  (forall l, In l lines -> no_nl l) ->
  forall o, In o (options (classify lines)) -> good_option o.
Proof.
  unfold classify.
  assert (Hgen : forall c, (forall o, In o (options c) -> good_option o) ->
            (forall l, In l lines -> no_nl l) ->
            forall o, In o (options (fold_left classify_step lines c)) -> good_option o).
  { induction lines as [|l ls IH]; intros c Hc Hl; simpl; [exact Hc|].
    apply IH; [|intros l' H; apply Hl; right; exact H].
    intros o. unfold classify_step.
    destruct (is_option_line l) eqn:Eopt; simpl.
    { rewrite in_app_iff. intros [H | [<- | []]]; [exact (Hc _ H)|].
      split; [exact Eopt | apply Hl; left; reflexivity]. }
    destruct (contains _ _); simpl; [exact (Hc o)|].
    destruct (parsing_options c); simpl; [|exact (Hc o)].
    destruct (options c) as [|x xs] eqn:Eo; simpl; [exact (Hc o)|].
    intros H0. assert (H : In o (append_last (x :: xs) l)) by exact H0.
    apply append_last_in in H.
    destruct H as [H | (x' & Hx' & ->)]; [exact (Hc _ H)|].
    apply good_option_extend; [exact (Hc _ Hx') | apply Hl; left; reflexivity]. }
  intros Hl. apply Hgen; [intros o []|exact Hl].
Qed.

Lemma span_options_good (ft : string) (span : nat * nat) (o : string) :
  In o (options (span_fields ft span)) -> good_option o.
Proof.
  unfold span_fields. apply classify_good_options, clean_first_no_nl.
  intros l. apply span_lines_no_nl.
Qed.

(* ------------------------------------------------------------------ *)
(** ** Option texts, answer letters and the question type              *)

Lemma take_line_no_nl (s : string) : no_nl s -> take_line s = s.
Proof.
  unfold no_nl, chars. induction s as [|c s IH]; simpl; [reflexivity|].
  intros H. destruct (Ascii.eqb_spec c "010") as [-> | _]; [tauto|].
  rewrite IH; [reflexivity | tauto].
Qed.

Lemma lstrip_idem (s : string) : lstrip (lstrip s) = lstrip s.
Proof.
  induction s as [|c s IH]; simpl; [reflexivity|].
  destruct (is_space c) eqn:E; [exact IH|]. simpl. rewrite E. reflexivity.
Qed.

Lemma strip_lstrip (s : string) : strip (lstrip s) = strip s.
Proof. unfold strip. rewrite lstrip_idem. reflexivity. Qed.

Lemma match_option_good (o : string) :
  good_option o ->
  exists l, o = String l (String "." (str_drop 2 o)) /\
    match_option o = Some (l, lstrip (str_drop 2 o)).
Proof.
  intros [Hopt Hnl]. destruct o as [|l [|d r]]; try discriminate.
  rewrite !str_drop_S, str_drop_0. simpl in Hopt.
  apply andb_prop in Hopt. destruct Hopt as [Hu Hd].
  apply Ascii.eqb_eq in Hd. subst d. exists l. split; [reflexivity|].
  unfold match_option. rewrite Hu. simpl.
  rewrite take_line_no_nl; [reflexivity|].
  intros H. apply Hnl. apply chars_lstrip in H. right. right. exact H.
Qed.

Lemma opt_texts_good (opts : list string) :
  (forall o, In o opts -> good_option o) -> opt_texts opts = map option_text opts.
Proof.
  induction opts as [|o r IH]; intros Hg; [reflexivity|].
  destruct (match_option_good o (Hg o (or_introl eq_refl))) as (l & _ & Hm).
  assert (E : opt_texts (o :: r) =
              match match match_option o with
                    | Some (_, t) => Some (lower (strip t))
                    | None => None
                    end with
              | Some y => y :: opt_texts r
              | None => opt_texts r
              end) by reflexivity.
  rewrite E, Hm, IH by (intros o' H; apply Hg; right; exact H). simpl.
  unfold option_text. rewrite strip_lstrip. reflexivity.
Qed.

Lemma formatted_options_good (opts : list string) :
  (forall o, In o opts -> good_option o) -> formatted_options opts = map reformat_option opts.
Proof.
  induction opts as [|o r IH]; intros Hg; [reflexivity|].
  destruct (match_option_good o (Hg o (or_introl eq_refl))) as (l & Ho & Hm).
  assert (E : formatted_options (o :: r) =
              match match match_option o with
                    | Some (letter, text) =>
                        Some (String (lower_char letter) EmptyString +s+ ") " +s+ strip text)
                    | None => None
                    end with
              | Some y => y :: formatted_options r
              | None => formatted_options r
              end) by reflexivity.
  rewrite E, Hm, IH by (intros o' H; apply Hg; right; exact H). simpl.
  rewrite strip_lstrip. f_equal.
  set (d := str_drop 2 o) in *. clearbody d. rewrite Ho.
  unfold reformat_option. rewrite !str_drop_S, str_drop_0. reflexivity.
Qed.

Lemma is_tf_true (opts : list string) :
  (forall o, In o opts -> good_option o) -> tf_option_texts opts -> is_tf opts = true.
Proof.
  intros Hg Htf. unfold is_tf. rewrite opt_texts_good by exact Hg.
  rewrite <- (length_map option_text).
  destruct Htf as [H | H]; rewrite H; reflexivity.
Qed.

Lemma is_tf_false (opts : list string) :
  (forall o, In o opts -> good_option o) -> ~ tf_option_texts opts -> is_tf opts = false.
Proof.
  intros Hg Htf. unfold is_tf. rewrite opt_texts_good by exact Hg.
  destruct opts as [|o1 [|o2 [|o3 r]]]; try reflexivity.
  unfold tf_option_texts in Htf. cbn [map length Nat.eqb andb] in Htf |- *.
  set (t1 := option_text o1) in *. set (t2 := option_text o2) in *.
  case_bool_decide as H1; [|reflexivity]. case_bool_decide as H2; [|reflexivity].
  exfalso. apply Htf.
  rewrite !elem_of_cons, elem_of_nil in H1, H2.
  destruct H1 as [<- | [<- | []]]; destruct H2 as [H2 | [H2 | []]];
    try discriminate; rewrite <- H2; auto.
Qed.

Lemma answer_letters_in (s x : string) :
  In x (answer_letters s) <->
  exists u, In u (chars s) /\ is_upper u = true /\ x = String (lower_char u) EmptyString.
Proof.
  unfold answer_letters. rewrite in_map_iff. split.
  - intros (u & <- & Hu). apply filter_In in Hu. destruct Hu as [Hin Hup].
    exists u. auto.
  - intros (u & Hin & Hup & ->). exists u. split; [reflexivity|]. apply filter_In. auto.
Qed.

Lemma answer_letters_none (s : string) :
  (forall u, In u (chars s) -> is_upper u = false) -> answer_letters s = [].
Proof.
  unfold answer_letters, chars. intros H.
  induction (list_ascii_of_string s) as [|u r IH]; [reflexivity|]. simpl.
  rewrite (H u (or_introl eq_refl)). apply IH. intros u' Hu'. apply H. right. exact Hu'.
Qed.

(** C3, as stated, fails on [tf_doc]: no answer letter is extracted, the
    claim's rule gives "false", and the code answers "true". *)
Lemma tf_answer_without_letter :
  let ft := full_text tf_doc in
  let c := span_fields ft (0, String.length ft) in
  question_text_lines c = ["Is it?"] /\
  map option_text (options c) = ["true"; "false"] /\
  correct_answer_str c = "true" /\
  answer_letters (correct_answer_str c) = [] /\
  claimed_tf_answer (answer_letters (correct_answer_str c)) = "false" /\
  parse_vce_pdf tf_doc [] =
    (default_title, [{| q_type := "@tf"; q_text := "Is it?"; q_options := []; q_answer := "true" |}]).
Proof. vm_compute. repeat split. Qed.

(** C3 (amended): a kept question whose two option texts are "true" and
    "false" in some order is a true/false question without option lines;
    its answer is "true" if the first extracted answer letter is "a" or
    no letter was extracted, and "false" otherwise. *)
Theorem tf_classification (imgs : list image_occ) (po : list (nat * nat)) (ft : string)
    (last : Z) (qs : list question) (span : nat * nat) :
  let c := span_fields ft span in
  question_text_lines c <> [] ->
  correct_answer_str c <> EmptyString ->
  tf_option_texts (options c) ->
  exists last' q,
    process_span imgs po ft (last, qs) span = (last', (qs ++ [q])%list) /\
    q_type q = "@tf" /\ q_options q = [] /\
    q_answer q = match answer_letters (correct_answer_str c) with
                 | a :: _ => if String.eqb a "a" then "true" else "false"
                 | [] => "true"
                 end.
Proof.
  intros c Hbody Hans Htf.
  rewrite (process_span_kept _ _ _ _ _ _ Hbody Hans). fold c.
  do 2 eexists. split; [reflexivity|].
  unfold build_question.
  rewrite (is_tf_true (options c) (span_options_good ft span) Htf).
  split; [reflexivity|]. split; [reflexivity|]. simpl.
  destruct (answer_letters _); reflexivity.
Qed.

Lemma tf_classification_witness :
  let ft := full_text tf_doc in
  let span := (0, String.length ft) in
  let c := span_fields ft span in
  question_text_lines c <> [] /\ correct_answer_str c <> EmptyString /\
  tf_option_texts (options c) /\
  exists last' q,
    process_span [] (page_offsets tf_doc) ft ((-1)%Z, []) span = (last', ([] ++ [q])%list) /\
    q_type q = "@tf" /\ q_options q = [] /\
    q_answer q = match answer_letters (correct_answer_str c) with
                 | a :: _ => if String.eqb a "a" then "true" else "false"
                 | [] => "true"
                 end.
Proof.
  intros ft span c.
  assert (H1 : question_text_lines c <> []) by (vm_compute; discriminate).
  assert (H2 : correct_answer_str c <> EmptyString) by (vm_compute; discriminate).
  assert (H3 : tf_option_texts (options c)) by (left; vm_compute; reflexivity).
  split; [exact H1|]. split; [exact H2|]. split; [exact H3|].
  exact (tf_classification [] (page_offsets tf_doc) ft (-1)%Z [] span H1 H2 H3).
Defined.

(** C4: for a kept question that is not true/false, the answer letters
    are the uppercase letters of the raw answer string, lowercased; the
    type is single-choice for exactly one letter and multi-select
    otherwise; the options are reformatted as "<letter>) <text>"; the
    answer is the comma-space join of the letters.  On [multi_doc], whose
    answer line is "Correct Answer: B, D", the letters are b and d, the
    type is multi-select and the answer is "b, d". *)
Theorem answer_letters_classification :
  (forall (imgs : list image_occ) (po : list (nat * nat)) (ft : string)
          (last : Z) (qs : list question) (span : nat * nat),
     let c := span_fields ft span in
     let letters := answer_letters (correct_answer_str c) in
     question_text_lines c <> [] ->
     correct_answer_str c <> EmptyString ->
     ~ tf_option_texts (options c) ->
     exists last' q,
       process_span imgs po ft (last, qs) span = (last', (qs ++ [q])%list) /\
       (forall x, In x letters <->
          exists u, In u (chars (correct_answer_str c)) /\ is_upper u = true /\
                    x = String (lower_char u) EmptyString) /\
       q_type q = (if length letters =? 1 then "@mc" else "@sata") /\
       q_options q = map reformat_option (options c) /\
       q_answer q = join ", " letters) /\
  (let ft := full_text multi_doc in
   let c := span_fields ft (0, String.length ft) in
   correct_answer_str c = "B, D" /\
   answer_letters (correct_answer_str c) = ["b"; "d"] /\
   exists q, snd (parse_vce_pdf multi_doc []) = [q] /\
     q_type q = "@sata" /\ q_answer q = "b, d").
Proof.
  split.
  - intros imgs po ft last qs span c letters Hbody Hans Htf.
    rewrite (process_span_kept _ _ _ _ _ _ Hbody Hans). fold c.
    do 2 eexists. split; [reflexivity|].
    split; [apply answer_letters_in|].
    unfold build_question.
    rewrite (is_tf_false (options c) (span_options_good ft span) Htf).
    split; [reflexivity|]. split; [|reflexivity]. simpl.
    apply formatted_options_good, span_options_good.
  - vm_compute. split; [reflexivity|]. split; [reflexivity|].
    eexists. split; [reflexivity|]. split; reflexivity.
Qed.

Lemma answer_letters_classification_witness :
  let ft := full_text multi_doc in
  let span := (0, String.length ft) in
  let c := span_fields ft span in
  question_text_lines c <> [] /\ correct_answer_str c <> EmptyString /\
  ~ tf_option_texts (options c) /\
  exists last' q,
    process_span [] (page_offsets multi_doc) ft ((-1)%Z, []) span = (last', ([] ++ [q])%list) /\
    (forall x, In x (answer_letters (correct_answer_str c)) <->
       exists u, In u (chars (correct_answer_str c)) /\ is_upper u = true /\
                 x = String (lower_char u) EmptyString) /\
    q_type q = (if length (answer_letters (correct_answer_str c)) =? 1 then "@mc" else "@sata") /\
    q_options q = map reformat_option (options c) /\
    q_answer q = join ", " (answer_letters (correct_answer_str c)).
Proof.
  intros ft span c.
  assert (H1 : question_text_lines c <> []) by (vm_compute; discriminate).
  assert (H2 : correct_answer_str c <> EmptyString) by (vm_compute; discriminate).
  assert (H3 : ~ tf_option_texts (options c))
    by (unfold tf_option_texts; vm_compute; intros [H | H]; discriminate).
  split; [exact H1|]. split; [exact H2|]. split; [exact H3|].
  exact (proj1 answer_letters_classification [] (page_offsets multi_doc) ft (-1)%Z [] span
           H1 H2 H3).
Defined.

(** C10, as stated, fails on [bodyless_doc]: the raw answer string
    "true" is non-empty and has no uppercase letter, yet the span adds no
    question, because it has no body line. *)
Lemma lowercase_answer_bodyless_dropped :
  let ft := full_text bodyless_doc in
  let c := span_fields ft (0, String.length ft) in
  correct_answer_str c = "true" /\
  answer_letters (correct_answer_str c) = [] /\
  question_text_lines c = [] /\
  parse_vce_pdf bodyless_doc [] = (default_title, []).
Proof. vm_compute. repeat split. Qed.

(** C10 (amended): a span with at least one body line and a non-empty
    raw answer string without uppercase letters is kept; as a true/false
    question its answer is "true", otherwise it is multi-select with an
    empty answer. *)
Theorem lowercase_answer_kept (imgs : list image_occ) (po : list (nat * nat)) (ft : string)
    (last : Z) (qs : list question) (span : nat * nat) :
  let c := span_fields ft span in
  question_text_lines c <> [] ->
  correct_answer_str c <> EmptyString ->
  (forall u, In u (chars (correct_answer_str c)) -> is_upper u = false) ->
  exists last' q,
    process_span imgs po ft (last, qs) span = (last', (qs ++ [q])%list) /\
    (tf_option_texts (options c) -> q_type q = "@tf" /\ q_answer q = "true") /\
    (~ tf_option_texts (options c) -> q_type q = "@sata" /\ q_answer q = EmptyString).
Proof.
  intros c Hbody Hans Hlow.
  rewrite (process_span_kept _ _ _ _ _ _ Hbody Hans). fold c.
  do 2 eexists. split; [reflexivity|].
  unfold build_question. rewrite (answer_letters_none _ Hlow).
  split; intros Htf.
  - rewrite (is_tf_true (options c) (span_options_good ft span) Htf). split; reflexivity.
  - rewrite (is_tf_false (options c) (span_options_good ft span) Htf). split; reflexivity.
Qed.

Lemma lowercase_answer_kept_witness :
  let ft := full_text lowercase_doc in
  let span := (0, String.length ft) in
  let c := span_fields ft span in
  question_text_lines c <> [] /\ correct_answer_str c <> EmptyString /\
  (forall u, In u (chars (correct_answer_str c)) -> is_upper u = false) /\
  exists last' q,
    process_span [] (page_offsets lowercase_doc) ft ((-1)%Z, []) span = (last', ([] ++ [q])%list) /\
    (tf_option_texts (options c) -> q_type q = "@tf" /\ q_answer q = "true") /\
    (~ tf_option_texts (options c) -> q_type q = "@sata" /\ q_answer q = EmptyString).
Proof.
  intros ft span c.
  assert (H1 : question_text_lines c <> []) by (vm_compute; discriminate).
  assert (H2 : correct_answer_str c <> EmptyString) by (vm_compute; discriminate).
  assert (H3 : forall u, In u (chars (correct_answer_str c)) -> is_upper u = false).
  { vm_compute. intros u Hu. repeat destruct Hu as [<- | Hu]; try reflexivity. destruct Hu. }
  split; [exact H1|]. split; [exact H2|]. split; [exact H3|].
  exact (lowercase_answer_kept [] (page_offsets lowercase_doc) ft (-1)%Z [] span H1 H2 H3).
Defined.

(* ------------------------------------------------------------------ *)
(** ** The formatter                                                   *)

Lemma output_extend_run (lines : list string) (s : store) :
  output_extend lines s =
  (tt, {| st_questions := st_questions s; st_output := (st_output s ++ lines)%list |}).
Proof.
  revert s. induction lines as [|l r IH]; intros s.
  - simpl. rewrite app_nil_r. destruct s; reflexivity.
  - change (output_extend (l :: r)) with (output_append l ≫= fun _ => output_extend r).
    unfold mbind, M_bind, output_append. rewrite IH. cbn [st_questions st_output].
    rewrite <- app_assoc. reflexivity.
Qed.

Lemma emit_questions_run (i : nat) (qs : list question) (s : store) :
  emit_questions i qs s =
  (tt, {| st_questions := st_questions s; st_output := (st_output s ++ question_block i qs)%list |}).
Proof.
  revert i s. induction qs as [|q r IH]; intros i s.
  - simpl. rewrite app_nil_r. destruct s; reflexivity.
  - change (emit_questions i (q :: r))
      with (output_extend (question_lines i q) ≫= fun _ => emit_questions (S i) r).
    unfold mbind, M_bind. rewrite output_extend_run, IH. cbn [st_questions st_output question_block].
    rewrite <- app_assoc. reflexivity.
Qed.

Lemma format_flashquiz_run (title : string) (s : store) :
  format_flashquiz title s =
  (flashquiz_text title (st_questions s),
   {| st_questions := st_questions s;
      st_output := (header_lines title ++ question_block 1 (st_questions s))%list |}).
Proof.
  unfold format_flashquiz, mbind, M_bind, new_output.
  rewrite output_extend_run. cbn [st_questions st_output app].
  unfold read_questions. cbn [fst snd st_questions].
  rewrite emit_questions_run. cbn [st_questions st_output app].
  unfold read_output, mret, M_ret, flashquiz_text. reflexivity.
Qed.

(** C9: the formatter's output depends only on the title and on the
    question list it is given, not on anything left from an earlier call;
    it leaves the question list as it was; so a second call on the same
    arguments returns the same text as the first. *)
Theorem formatter_deterministic (title : string) (s s' : store) :
  st_questions s = st_questions s' ->
  fst (format_flashquiz title s) = fst (format_flashquiz title s') /\
  st_questions (snd (format_flashquiz title s)) = st_questions s /\
  fst (format_flashquiz title (snd (format_flashquiz title s))) = fst (format_flashquiz title s) /\
  fst (format_flashquiz title s) = flashquiz_text title (st_questions s).
Proof.
  intros Hq. rewrite !format_flashquiz_run. simpl. rewrite Hq. auto.
Qed.

Lemma formatter_deterministic_witness :
  let s := {| st_questions := snd (parse_vce_pdf multi_doc []); st_output := ["stale"] |} in
  let s' := {| st_questions := snd (parse_vce_pdf multi_doc []); st_output := [] |} in
  st_questions s = st_questions s' /\
  fst (format_flashquiz "Quiz" s) = fst (format_flashquiz "Quiz" s') /\
  st_questions (snd (format_flashquiz "Quiz" s)) = st_questions s /\
  fst (format_flashquiz "Quiz" (snd (format_flashquiz "Quiz" s))) = fst (format_flashquiz "Quiz" s) /\
  fst (format_flashquiz "Quiz" s) = flashquiz_text "Quiz" (st_questions s).
Proof.
  intros s s'. assert (H : st_questions s = st_questions s') by reflexivity.
  split; [exact H|]. exact (formatter_deterministic "Quiz" s s' H).
Defined.

(* ------------------------------------------------------------------ *)
(** ** Image extraction                                                *)

Lemma list_filter_none {A} (f : A -> bool) (l : list A) :
  (forall x, In x l -> f x = false) -> List.filter f l = [].
Proof.
  induction l as [|x l IH]; intros H; simpl; [reflexivity|].
  rewrite (H x (or_introl eq_refl)). apply IH. intros y Hy. apply H. right. exact Hy.
Qed.

Lemma page_ops_page (i : nat) (images : gmap string xobject) (ops : list operation) :
  forall o, In o (fst (page_ops i images ops)) -> img_page o = i.
Proof.
  induction ops as [|[operands operator] r IH]; cbn [page_ops fst]; [intros o []|].
  destruct (String.eqb operator "Do"); [|exact IH].
  destruct operands as [|name rest]; [simpl; tauto|].
  destruct (images !! name) as [obj|]; [|exact IH].
  destruct (xo_data obj) as [data|]; [|simpl; tauto].
  destruct (get_image_base64_from_data data name) as [b64|]; [|exact IH].
  destruct (String.eqb b64 EmptyString); [exact IH|].
  destruct (page_ops i images r) as [occ failed] eqn:E. simpl in IH |- *.
  intros o [<- | H]; [reflexivity | exact (IH o H)].
Qed.

Lemma page_occurrences_page (i : nat) (pg : pdf_page) :
  forall o, In o (fst (page_occurrences i pg)) -> img_page o = i.
Proof.
  unfold page_occurrences. destruct (pg_contents pg); simpl; try tauto.
  apply page_ops_page.
Qed.

Lemma extract_pages_range (i : nat) (pages : list pdf_page) :
  forall o, In o (fst (extract_pages i pages)) -> i <= img_page o < i + length pages.
Proof.
  revert i. induction pages as [|pg r IH]; intros i; simpl; [tauto|].
  pose proof (page_occurrences_page i pg) as Hp.
  destruct (page_occurrences i pg) as [occ failed].
  pose proof (IH (S i)) as IH'.
  destruct (extract_pages (S i) r) as [occs warned]. simpl in *.
  intros o Ho. apply in_app_or in Ho. destruct Ho as [Ho | Ho].
  - rewrite (Hp o Ho). lia.
  - specialize (IH' o Ho). lia.
Qed.

Lemma extract_pages_sorted (i : nat) (pages : list pdf_page) :
  StronglySorted le (map img_page (fst (extract_pages i pages))).
Proof.
  revert i. induction pages as [|pg r IH]; intros i; simpl; [constructor|].
  pose proof (page_occurrences_page i pg) as Hp.
  pose proof (extract_pages_range (S i) r) as Hr.
  specialize (IH (S i)).
  destruct (page_occurrences i pg) as [occ failed].
  destruct (extract_pages (S i) r) as [occs warned]. simpl in *.
  induction occ as [|o occ IHo]; simpl; [exact IH|].
  constructor.
  - apply IHo. intros o' H. apply Hp. right. exact H.
  - rewrite List.Forall_forall. intros p Hin. rewrite ?map_app in Hin.
    rewrite <- map_app in Hin. apply in_map_iff in Hin. destruct Hin as (o' & <- & Ho').
    rewrite (Hp o (or_introl eq_refl)).
    apply in_app_or in Ho'. destruct Ho' as [H | H].
    + rewrite (Hp o' (or_intror H)). lia.
    + specialize (Hr o' H). lia.
Qed.

(** The image occurrences come page by page: their page indices never
    decrease along the list, and each is the index of a page of the
    document. *)
Theorem image_occurrences_page_order (pages : list pdf_page) :
  StronglySorted le (map img_page (extract_all_image_occurrences pages)) /\
  Forall (fun o => img_page o < length pages) (extract_all_image_occurrences pages).
Proof.
  split; [apply extract_pages_sorted|].
  rewrite List.Forall_forall. intros o Ho.
  pose proof (extract_pages_range 0 pages o Ho). lia.
Qed.

Lemma extract_pages_filter (j : nat) (pages : list pdf_page) (k : nat) (pg : pdf_page) :
  pages !! k = Some pg ->
  List.filter (fun o => img_page o =? j + k) (fst (extract_pages j pages)) =
  fst (page_occurrences (j + k) pg).
Proof.
  revert j k. induction pages as [|pg0 r IH]; intros j k Hk; [discriminate|].
  simpl.
  pose proof (page_occurrences_page j pg0) as Hp.
  pose proof (extract_pages_range (S j) r) as Hr.
  pose proof (IH (S j) (pred k)) as IH'.
  destruct (page_occurrences j pg0) as [occ failed] eqn:Eocc.
  destruct (extract_pages (S j) r) as [occs warned]. simpl in *.
  rewrite List.filter_app.
  destruct k as [|k].
  - simpl in Hk. injection Hk as <-. rewrite Nat.add_0_r, Eocc. simpl.
    rewrite List.forallb_filter_id.
    2:{ apply List.forallb_forall. intros o Ho. rewrite (Hp o Ho). apply Nat.eqb_refl. }
    rewrite (list_filter_none _ occs); [apply app_nil_r|].
    intros o Ho. apply Nat.eqb_neq. specialize (Hr o Ho). lia.
  - simpl in Hk. replace (j + S k) with (S j + k) by lia.
    rewrite (list_filter_none _ occ); [simpl; exact (IH' Hk)|].
    intros o Ho. apply Nat.eqb_neq. rewrite (Hp o Ho). lia.
Qed.

(** The occurrences of page [k] are the ones its own content stream
    gives: a page whose stream fails does not change what the other
    pages contribute. *)
Theorem image_occurrences_per_page (pages : list pdf_page) (k : nat) (pg : pdf_page) :
  pages !! k = Some pg ->
  List.filter (fun o => img_page o =? k) (extract_all_image_occurrences pages) =
  fst (page_occurrences k pg).
Proof. intros Hk. exact (extract_pages_filter 0 pages k pg Hk). Qed.



(** The operations of a stream that come after others (among them one
    that raises) never remove the occurrences found before them. *)
Theorem image_occurrences_prefix (i : nat) (images : gmap string xobject)
    (ops1 ops2 : list operation) :
  exists rest,
    fst (page_ops i images (ops1 ++ ops2)) = (fst (page_ops i images ops1) ++ rest)%list.
Proof.
  induction ops1 as [|[operands operator] r IH]; cbn [page_ops app fst].
  - exists (fst (page_ops i images ops2)). reflexivity.
  - destruct (String.eqb operator "Do"); [|exact IH].
    destruct operands as [|name rest]; [exists []; reflexivity|].
    destruct (images !! name) as [obj|]; [|exact IH].
    destruct (xo_data obj) as [data|]; [|exists []; reflexivity].
    destruct (get_image_base64_from_data data name) as [b64|]; [|exact IH].
    destruct (String.eqb b64 EmptyString); [exact IH|].
    destruct IH as [rest' IH]. exists rest'.
    destruct (page_ops i images (r ++ ops2)) as [occ failed].
    destruct (page_ops i images r) as [occ' failed']. simpl in *. rewrite IH. reflexivity.
Qed.

(* ------------------------------------------------------------------ *)
(** ** The data URI                                                    *)

Lemma forall_N_below (bound : nat) (P : N -> bool) :
  forallb (fun a => P (N.of_nat a)) (seq 0 bound) = true ->
  forall x, (x < N.of_nat bound)%N -> P x = true.
Proof.
  intros H x Hx. rewrite List.forallb_forall in H.
  rewrite <- (N2Nat.id x). apply H. apply in_seq. lia.
Qed.

Lemma b64_char_index (n : N) :
  (n < 64)%N -> b64_index (b64_char n) = Some n /\ Ascii.eqb (b64_char n) "=" = false.
Proof.
  intros Hn.
  assert (H := forall_N_below 64
    (fun n => match b64_index (b64_char n) with
              | Some m => N.eqb m n && negb (Ascii.eqb (b64_char n) "=")
              | None => false
              end) ltac:(vm_compute; reflexivity) n Hn).
  cbv beta in H. destruct (b64_index (b64_char n)) as [m|]; [|discriminate].
  apply andb_prop in H. destruct H as [H1 H2]. apply N.eqb_eq in H1. subst m.
  split; [reflexivity|]. destruct (Ascii.eqb _ _); [discriminate|reflexivity].
Qed.

Section Sextets.
Local Open Scope N_scope.

Definition s1 (x : N) : N := N.shiftr x 2.
Definition s2 (x y : N) : N := N.lor (N.shiftl (N.land x 3) 4) (N.shiftr y 4).
Definition s3 (y z : N) : N := N.lor (N.shiftl (N.land y 15) 2) (N.shiftr z 6).
Definition s4 (z : N) : N := N.land z 63.

Lemma byte_single (P : N -> bool) :
  forallb (fun a => P (N.of_nat a)) (seq 0 256) = true ->
  forall b : Byte.byte, P (Byte.to_N b) = true.
Proof.
  intros H b. apply (forall_N_below 256 P H). pose proof (Byte.to_N_bounded b). simpl. lia.
Qed.

Lemma byte_pair (P : N -> N -> bool) :
  forallb (fun a => forallb (fun b => P (N.of_nat a) (N.of_nat b)) (seq 0 256)) (seq 0 256) = true ->
  forall a b : Byte.byte, P (Byte.to_N a) (Byte.to_N b) = true.
Proof.
  intros H a b.
  apply (byte_single (fun x => forallb (fun c => P x (N.of_nat c)) (seq 0 256))) with (b := a) in H.
  exact (byte_single (P (Byte.to_N a)) H b).
Qed.

Lemma sextets_bounded (a b : Byte.byte) :
  let x := Byte.to_N a in let y := Byte.to_N b in
  s1 x < 64 /\ s2 x y < 64 /\ s3 x y < 64 /\ s4 x < 64 /\
  N.shiftl (N.land x 3) 4 < 64 /\ N.shiftl (N.land x 15) 2 < 64.
Proof.
  pose proof (byte_pair (fun x y => (s1 x <? 64) && (s2 x y <? 64) && (s3 x y <? 64) &&
                (s4 x <? 64) && (N.shiftl (N.land x 3) 4 <? 64) && (N.shiftl (N.land x 15) 2 <? 64))
              ltac:(vm_compute; reflexivity) a b) as H.
  cbv beta zeta in H |- *. repeat (apply andb_prop in H; destruct H as [H ?]).
  repeat split; apply N.ltb_lt; assumption.
Qed.

Lemma decode_x (a b : Byte.byte) :
  let x := Byte.to_N a in let y := Byte.to_N b in
  N.lor (N.shiftl (s1 x) 2) (N.shiftr (s2 x y) 4) = x /\
  N.lor (N.shiftl (s1 x) 2) (N.shiftr (N.shiftl (N.land x 3) 4) 4) = x /\
  N.land (N.lor (N.shiftl (s2 x y) 4) (N.shiftr (N.shiftl (N.land y 15) 2) 2)) 255 = y /\
  N.land (N.lor (N.shiftl (s3 x y) 6) (s4 y)) 255 = y /\
  N.shiftr (s3 x y) 2 = N.land x 15 /\
  N.land (N.lor (N.shiftl (s2 x y) 4) (N.land y 15)) 255 = y.
Proof.
  pose proof (byte_pair (fun x y =>
     (N.lor (N.shiftl (s1 x) 2) (N.shiftr (s2 x y) 4) =? x) &&
     (N.lor (N.shiftl (s1 x) 2) (N.shiftr (N.shiftl (N.land x 3) 4) 4) =? x) &&
     (N.land (N.lor (N.shiftl (s2 x y) 4) (N.shiftr (N.shiftl (N.land y 15) 2) 2)) 255 =? y) &&
     (N.land (N.lor (N.shiftl (s3 x y) 6) (s4 y)) 255 =? y) &&
     (N.shiftr (s3 x y) 2 =? N.land x 15) &&
     (N.land (N.lor (N.shiftl (s2 x y) 4) (N.land y 15)) 255 =? y))
     ltac:(vm_compute; reflexivity) a b) as H.
  cbv beta zeta in H |- *. repeat (apply andb_prop in H; destruct H as [H ?]).
  repeat split; apply N.eqb_eq; assumption.
Qed.

End Sextets.

Lemma b64decode_encode (l : list Byte.byte) : b64decode (b64encode l) = Some l.
Proof.
  remember (length l) as n eqn:Hn. revert l Hn.
  induction n as [n IH] using lt_wf_ind. intros l Hn.
  destruct l as [|a [|b [|c r]]].
  - reflexivity.
  - destruct (sextets_bounded a a) as (Hs1 & _ & _ & _ & Hp2 & _).
    destruct (decode_x a a) as (_ & Hx & _).
    cbn [b64encode b64decode].
    change (N.shiftr (Byte.to_N a) 2) with (s1 (Byte.to_N a)).
    rewrite (proj1 (b64_char_index _ Hs1)), (proj1 (b64_char_index _ Hp2)).
    cbn [mbind option_bind]. unfold byte_of. rewrite Hx, Byte.of_to_N.
    reflexivity.
  - destruct (sextets_bounded a b) as (Hs1 & Hs2 & _ & _ & _ & _).
    destruct (sextets_bounded b b) as (_ & _ & _ & _ & _ & Hp3).
    destruct (decode_x a b) as (Hx & _ & Hy & _).
    cbn [b64encode b64decode].
    change (N.shiftr (Byte.to_N a) 2) with (s1 (Byte.to_N a)).
    change (N.lor (N.shiftl (N.land (Byte.to_N a) 3) 4) (N.shiftr (Byte.to_N b) 4))
      with (s2 (Byte.to_N a) (Byte.to_N b)).
    rewrite (proj1 (b64_char_index _ Hs1)), (proj1 (b64_char_index _ Hs2)).
    rewrite (proj2 (b64_char_index _ Hp3)), (proj1 (b64_char_index _ Hp3)).
    cbn [mbind option_bind]. unfold byte_of.
    rewrite Hx, Byte.of_to_N, Hy, Byte.of_to_N. reflexivity.
  - destruct (sextets_bounded a b) as (Hs1 & Hs2 & _ & _ & _ & _).
    destruct (sextets_bounded b c) as (_ & _ & Hs3 & _ & _ & _).
    destruct (sextets_bounded c c) as (_ & _ & _ & Hs4 & _ & _).
    destruct (decode_x a b) as (Hx & _ & _ & _ & _ & Hy).
    destruct (decode_x b c) as (_ & _ & _ & Hz & Hy3 & _).
    cbn [b64encode b64decode].
    change (N.shiftr (Byte.to_N a) 2) with (s1 (Byte.to_N a)).
    change (N.lor (N.shiftl (N.land (Byte.to_N a) 3) 4) (N.shiftr (Byte.to_N b) 4))
      with (s2 (Byte.to_N a) (Byte.to_N b)).
    change (N.lor (N.shiftl (N.land (Byte.to_N b) 15) 2) (N.shiftr (Byte.to_N c) 6))
      with (s3 (Byte.to_N b) (Byte.to_N c)).
    change (N.land (Byte.to_N c) 63) with (s4 (Byte.to_N c)).
    rewrite (proj1 (b64_char_index _ Hs1)), (proj1 (b64_char_index _ Hs2)).
    rewrite (proj2 (b64_char_index _ Hs3)), (proj1 (b64_char_index _ Hs3)).
    rewrite (proj2 (b64_char_index _ Hs4)), (proj1 (b64_char_index _ Hs4)).
    cbn [andb mbind option_bind]. unfold byte_of.
    rewrite Hx, Byte.of_to_N, Hy3, Hy, Byte.of_to_N, Hz, Byte.of_to_N.
    rewrite (IH (length r)) by (simpl in Hn; lia). reflexivity.
Qed.

Lemma str_app_inv_l (p a b : string) : p +s+ a = p +s+ b -> a = b.
Proof. induction p as [|c p IH]; simpl; [tauto|]. intros H. injection H. exact IH. Qed.

Lemma image_uri_parts (data : list Byte.byte) (name r : string) :
  get_image_base64_from_data data name = Some r ->
  exists ext, In ext ["png"; "jpg"; "jpeg"; "gif"] /\
    r = "data:image/" +s+ ext +s+ ";base64," +s+ b64encode data.
Proof.
  unfold get_image_base64_from_data. cbv zeta.
  destruct (bytes_startswith [Byte.xff; Byte.xd8] data);
    [intros H; exists "jpg"; split; [simpl; tauto | injection H as H; symmetry; exact H]|].
  destruct (bytes_startswith [Byte.x89; Byte.x50; Byte.x4e; Byte.x47] data);
    [intros H; exists "png"; split; [simpl; tauto | injection H as H; symmetry; exact H]|].
  destruct (bytes_startswith [Byte.x47; Byte.x49; Byte.x46] data);
    [intros H; exists "gif"; split; [simpl; tauto | injection H as H; symmetry; exact H]|].
  case_bool_decide as He; intros H.
  - exists (lower (last_component name)). split; [|injection H as H; symmetry; exact H].
    rewrite list_elem_of_In in He. exact He.
  - exists "png". split; [simpl; tauto | injection H as H; symmetry; exact H].
Qed.

(** The media type of an image's data URI is one of image/png,
    image/jpg, image/jpeg and image/gif, whatever the data and the name. *)
Theorem image_uri_media_type (data : list Byte.byte) (name r : string) :
  get_image_base64_from_data data name = Some r ->
  exists ext, In ext ["png"; "jpg"; "jpeg"; "gif"] /\
    String.prefix ("data:image/" +s+ ext +s+ ";") r = true.
Proof.
  intros H. destruct (image_uri_parts _ _ _ H) as (ext & Hin & ->).
  exists ext. split; [exact Hin|].
  replace ("data:image/" +s+ ext +s+ ";base64," +s+ b64encode data)
    with (("data:image/" +s+ ext +s+ ";") +s+ "base64," +s+ b64encode data)
    by (rewrite !str_app_assoc; reflexivity).
  apply prefix_app.
Qed.

(** Two images get the same data URI only if their bytes are the same
    (whatever their names): the set [seen_b64] of the exhibit walk
    compares image data. *)
Theorem image_uri_injective (d1 d2 : list Byte.byte) (n1 n2 r : string) :
  get_image_base64_from_data d1 n1 = Some r ->
  get_image_base64_from_data d2 n2 = Some r ->
  d1 = d2.
Proof.
  intros H1 H2.
  destruct (image_uri_parts _ _ _ H1) as (e1 & He1 & E1).
  destruct (image_uri_parts _ _ _ H2) as (e2 & He2 & E2).
  rewrite E1 in E2. apply str_app_inv_l in E2.
  assert (Hb : b64encode d2 = b64encode d1).
  { simpl in He1, He2.
    destruct He1 as [<- | [<- | [<- | [<- | []]]]];
    destruct He2 as [<- | [<- | [<- | [<- | []]]]];
    simpl in E2; first [ repeat (injection E2 as E2); exact E2 | congruence ]. }
  pose proof (b64decode_encode d1) as D1. pose proof (b64decode_encode d2) as D2.
  rewrite Hb, D1 in D2. injection D2 as ->. reflexivity.
Qed.

Lemma string_get_in (k : nat) (s : string) (d : ascii) :
  String.get k s = Some d -> In d (chars s).
Proof.
  revert k. unfold chars. induction s as [|e s IH]; intros [|k] E; simpl in E; try discriminate.
  - injection E as <-. left. reflexivity.
  - right. exact (IH k E).
Qed.

Lemma chars_b64encode (l : list Byte.byte) (c : ascii) :
  In c (chars (b64encode l)) -> In c (chars b64_alphabet) \/ c = "="%char.
Proof.
  assert (Hch : forall n, In (b64_char n) (chars b64_alphabet) \/ b64_char n = "="%char).
  { intros n. unfold b64_char.
    destruct (String.get (N.to_nat n) b64_alphabet) as [d|] eqn:E; [left|right; reflexivity].
    exact (string_get_in _ _ _ E). }
  remember (length l) as n eqn:Hn. revert l Hn.
  induction n as [n IH] using lt_wf_ind. intros l Hn.
  destruct l as [|a [|b [|d r]]]; cbn [b64encode]; unfold chars at 1;
    cbn [list_ascii_of_string In].
  - tauto.
  - intros [<- | [<- | [<- | [<- | []]]]]; auto.
  - intros [<- | [<- | [<- | [<- | []]]]]; auto.
  - intros [<- | [<- | [<- | [<- | H]]]]; auto.
    apply (IH (length r)) with (l := r); [simpl in Hn; lia | reflexivity | exact H].
Qed.

(** A data URI contains no closing parenthesis and no whitespace, so
    the markdown reference [![Exhibit](uri)] appended to a question
    ends where the URI ends. *)
Theorem image_uri_markdown_safe (data : list Byte.byte) (name r : string) :
  get_image_base64_from_data data name = Some r ->
  forall c, In c (chars r) -> c <> ")"%char /\ is_space c = false.
Proof.
  intros H c Hc. destruct (image_uri_parts _ _ _ H) as (ext & Hin & ->).
  rewrite !chars_app in Hc. rewrite !in_app_iff in Hc.
  assert (Hsafe : forall s, forallb (fun c => negb (Ascii.eqb c ")") && negb (is_space c)) (chars s) = true ->
                  In c (chars s) -> c <> ")"%char /\ is_space c = false).
  { intros s Hs Hcs. rewrite List.forallb_forall in Hs. specialize (Hs c Hcs).
    apply andb_prop in Hs. destruct Hs as [H1 H2]. split.
    - intros ->. discriminate.
    - destruct (is_space c); [discriminate|reflexivity]. }
  destruct Hc as [Hc | [Hc | [Hc | Hc]]].
  - refine (Hsafe _ _ Hc); reflexivity.
  - simpl in Hin. destruct Hin as [<- | [<- | [<- | [<- | []]]]]; refine (Hsafe _ _ Hc); reflexivity.
  - refine (Hsafe _ _ Hc); reflexivity.
  - destruct (chars_b64encode _ _ Hc) as [Ha | ->].
    + refine (Hsafe _ _ Ha); reflexivity.
    + split; [discriminate | reflexivity].
Qed.

(* ------------------------------------------------------------------ *)
(** ** Page offsets and page spans                                     *)

Lemma str_length_app (a b : string) : String.length (a +s+ b) = String.length a + String.length b.
Proof. induction a as [|c a IH]; simpl; [reflexivity|]. now rewrite IH. Qed.

Lemma substring_app_l (a b : string) : substring 0 (String.length a) (a +s+ b) = a.
Proof. induction a as [|c a IH]; simpl; [destruct b; reflexivity|]. now rewrite IH. Qed.

Lemma substring_app_r (a b : string) (n m : nat) :
  substring (String.length a + n) m (a +s+ b) = substring n m b.
Proof. induction a as [|c a IH]; simpl; [reflexivity|]. exact IH. Qed.

Lemma build_text_from_locate (ps : list string) (i o k : nat) (p : string) :
  ps !! k = Some p ->
  exists off,
    snd (build_text_from ps i o) !! k = Some (o + off, i + k) /\
    substring off (String.length p + 1) (fst (build_text_from ps i o)) = p +s+ nl.
Proof.
  revert i o k. induction ps as [|p0 ps IH]; intros i o k Hk; [discriminate|].
  simpl. destruct (build_text_from ps (S i) _) as [rest offs] eqn:E. simpl.
  destruct k as [|k].
  - simpl in Hk. injection Hk as <-. exists 0. split; [rewrite !Nat.add_0_r; reflexivity|].
    rewrite str_app_assoc.
    replace (String.length p0 + 1) with (String.length (p0 +s+ nl))
      by (rewrite str_length_app; simpl; lia).
    rewrite <- str_app_assoc. apply substring_app_l.
  - simpl in Hk. destruct (IH (S i) (o + String.length (p0 +s+ String "010" EmptyString)) k Hk)
      as (off & H1 & H2).
    rewrite E in H1, H2. simpl in H1, H2.
    exists (String.length (p0 +s+ String "010" EmptyString) + off). split.
    + simpl. rewrite H1. f_equal. f_equal; lia.
    + rewrite substring_app_r. exact H2.
Qed.

(** Each page's entry in [page_offsets] is its index together with the
    offset at which its text, followed by the newline added at line 69,
    stands in the buffer. *)
Theorem page_offsets_locate (pages : list string) (k : nat) (p : string) :
  pages !! k = Some p ->
  exists off, page_offsets pages !! k = Some (off, k) /\
    substring off (String.length p + 1) (full_text pages) = p +s+ nl.
Proof.
  intros Hk. destruct (build_text_from_locate pages 0 0 k p Hk) as (off & H1 & H2).
  exists off. split; [exact H1 | exact H2].
Qed.

Lemma page_offsets_pages (pages : list string) :
  map snd (page_offsets pages) = seq 0 (length pages).
Proof.
  unfold page_offsets. rewrite build_text_from_indices.
  assert (Hl : length (snd (build_text_from pages 0 0)) = length pages).
  { rewrite <- (length_map snd). rewrite build_text_from_indices. apply length_seq. }
  reflexivity.
Qed.

Lemma last_le_ordered (po : list (nat * nat)) (i x y s e : nat) :
  map snd po = seq i (length po) -> x <= y -> s <= e -> s <= i ->
  last_le po x s <= last_le po y e.
Proof.
  revert i s e. induction po as [|[off idx] po IH]; intros i s e Hidx Hxy Hse Hsi; simpl; [exact Hse|].
  simpl in Hidx. injection Hidx as Hi Hidx. subst idx.
  apply (IH (S i)); [exact Hidx | exact Hxy | |];
    destruct (Nat.leb_spec off x); destruct (Nat.leb_spec off y); lia.
Qed.

Lemma last_le_values (po : list (nat * nat)) (x init : nat) :
  last_le po x init = init \/ In (last_le po x init) (map snd po).
Proof.
  revert init. induction po as [|[off idx] po IH]; intros init; simpl; [left; reflexivity|].
  destruct (IH (if off <=? x then idx else init)) as [-> | H]; [|right; right; exact H].
  destruct (off <=? x); [right; left; reflexivity | left; reflexivity].
Qed.

(** For a span that does not end before it starts, the start page is at
    most the end page, and both are pages of the document. *)
Theorem page_span_ordered (pages : list string) (q_start q_end : nat) :
  q_start <= q_end ->
  fst (page_span (page_offsets pages) q_start q_end) <=
    snd (page_span (page_offsets pages) q_start q_end) /\
  (pages <> [] -> snd (page_span (page_offsets pages) q_start q_end) < length pages).
Proof.
  intros Hle. unfold page_span. rewrite page_span_split. cbn [fst snd].
  pose proof (page_offsets_pages pages) as Hp.
  assert (Hl : length (page_offsets pages) = length pages)
    by (rewrite <- (length_map snd), Hp; apply length_seq).
  split.
  - apply (last_le_ordered _ 0); [rewrite Hl; exact Hp | exact Hle | lia | lia].
  - intros Hne. destruct (last_le_values (page_offsets pages) q_end 0) as [-> | H].
    + destruct pages; [congruence|]. simpl. lia.
    + rewrite Hp in H. apply in_seq in H. lia.
Qed.

(* ------------------------------------------------------------------ *)
(** ** The markers                                                     *)

Lemma str_drop_length (n : nat) (s : string) :
  String.length (str_drop n s) = String.length s - n.
Proof.
  revert n. induction s as [|c s IH]; intros [|n].
  - reflexivity.
  - reflexivity.
  - rewrite str_drop_0. reflexivity.
  - rewrite str_drop_S. simpl. apply IH.
Qed.

Lemma str_drop_add (p k : nat) (s : string) : str_drop k (str_drop p s) = str_drop (p + k) s.
Proof.
  revert p. induction s as [|c s IH]; intros [|p].
  - reflexivity.
  - rewrite !str_drop_empty. reflexivity.
  - rewrite str_drop_0. reflexivity.
  - rewrite !str_drop_S. apply IH.
Qed.

Lemma count_while_le (f : ascii -> bool) (s : string) : count_while f s <= String.length s.
Proof. induction s as [|c s IH]; simpl; [lia|]. destruct (f c); lia. Qed.

Lemma prefix_length (p s : string) : String.prefix p s = true -> String.length p <= String.length s.
Proof.
  revert s. induction p as [|c p IH]; intros s; simpl; [lia|].
  destruct s as [|d s]; [discriminate|]. simpl.
  destruct (ascii_dec c d); [|discriminate]. intros H. specialize (IH s H). lia.
Qed.

Lemma match_question_length (s : string) (len : nat) :
  match_question_at s = Some len -> 0 < len <= String.length s.
Proof.
  unfold match_question_at.
  destruct (String.prefix "QUESTION" s) eqn:Ep; [|discriminate].
  apply prefix_length in Ep. simpl in Ep.
  set (r := str_drop 8 s).
  destruct (_ || _); [discriminate|]. intros H. injection H as <-.
  pose proof (count_while_le is_space r) as H1.
  pose proof (count_while_le is_digit (str_drop (count_while is_space r) r)) as H2.
  rewrite str_drop_length in H2. unfold r in *. rewrite str_drop_length in H1, H2. lia.
Qed.

Lemma scan_markers_skip (s : string) (pos k : nat) :
  scan_markers s pos k = scan_markers (str_drop k s) (pos + k) 0.
Proof.
  revert pos k. induction s as [|c s IH]; intros pos [|k].
  - reflexivity.
  - rewrite str_drop_empty. reflexivity.
  - rewrite str_drop_0, Nat.add_0_r. reflexivity.
  - rewrite str_drop_S. simpl. rewrite IH. f_equal. lia.
Qed.

Lemma scan_markers_rest (s : string) (pos st en : nat) rest :
  scan_markers s pos 0 = (st, en) :: rest ->
  rest = scan_markers (str_drop (en - pos) s) en 0.
Proof.
  revert pos. induction s as [|c s IH]; intros pos H; [discriminate|].
  pose proof (scan_markers_cons _ _ _ _ _ _ H) as (Hle & Hm & _).
  simpl in H. destruct (match_question_at (String c s)) as [len|] eqn:Em.
  - injection H as <- <- <-.
    pose proof (match_question_length _ _ Em) as Hl.
    rewrite scan_markers_skip.
    replace (pos + len - pos) with (S (len - 1)) by lia. rewrite str_drop_S.
    f_equal. lia.
  - pose proof (scan_markers_cons _ _ _ _ _ _ H) as (Hle' & Hm' & _).
    pose proof (match_question_length _ _ Hm') as Hl.
    rewrite str_drop_length in Hl.
    rewrite (IH _ H). replace (en - pos) with (S (en - S pos)) by lia.
    rewrite str_drop_S. reflexivity.
Qed.

Lemma scan_leftmost (ft : string) (n p : nat) :
  String.length ft - p < n -> leftmost_matches ft p (scan_markers (str_drop p ft) p 0).
Proof.
  revert p. induction n as [|n IH]; intros p Hn; [lia|].
  destruct (scan_markers (str_drop p ft) p 0) as [|[st en] rest] eqn:E.
  - apply lm_none. intros j Hj.
    replace j with (p + (j - p)) by lia. rewrite <- str_drop_add.
    exact (scan_markers_nil _ _ _ E (j - p) ltac:(lia)).
  - pose proof (scan_markers_cons _ _ _ _ _ _ E) as (Hle & Hm & Hnone).
    rewrite str_drop_add in Hm. replace (p + (st - p)) with st in Hm by lia.
    pose proof (match_question_length _ _ Hm) as Hl. rewrite str_drop_length in Hl.
    apply lm_next; [lia | | exact Hm | lia |].
    + intros j Hj. replace j with (p + (j - p)) by lia. rewrite <- str_drop_add.
      apply Hnone. lia.
    + rewrite (scan_markers_rest _ _ _ _ _ E), str_drop_add.
      replace (p + (en - p)) with en by lia. apply IH. lia.
Qed.

Lemma finditer_leftmost (ft : string) :
  leftmost_matches ft 0 (finditer_question ft).
Proof.
  unfold finditer_question.
  pose proof (scan_leftmost ft (S (String.length ft)) 0 ltac:(lia)) as H.
  rewrite str_drop_0 in H. exact H.
Qed.

(** [finditer] yields the leftmost non-overlapping matches of
    [QUESTION\s+\d+]: each match is the first one at or after the end of
    the previous match, no match is skipped, and none follows the last. *)
Theorem finditer_question_leftmost (ft : string) :
  leftmost_matches ft 0 (finditer_question ft).
Proof.
  exact (finditer_leftmost ft).
Qed.

Lemma match_question_prefix (s : string) (len : nat) :
  match_question_at s = Some len -> String.prefix "QUESTION" s = true.
Proof. unfold match_question_at. destruct (String.prefix _ _); [reflexivity | discriminate]. Qed.

Lemma leftmost_matches_start (ft : string) (p : nat) (ms : list (nat * nat)) :
  leftmost_matches ft p ms -> forall st en rest, ms = (st, en) :: rest -> p <= st.
Proof. intros H st en rest ->. inversion H. assumption. Qed.

Lemma spans_within (ft : string) (p : nat) (ms : list (nat * nat)) :
  leftmost_matches ft p ms ->
  forall st en, In (st, en) (spans ms (String.length ft)) ->
    p <= st /\ st < en <= String.length ft /\ String.prefix "QUESTION" (str_drop st ft) = true.
Proof.
  induction 1 as [p Hnone | p st en rest Hp Hnone Hm Hb Hrest IH]; simpl; [tauto|].
  intros st0 en0 [Heq | Hin].
  - injection Heq as <- <-. split; [exact Hp|]. split; [|exact (match_question_prefix _ _ Hm)].
    destruct rest as [|[st' en'] r].
    + lia.
    + inversion Hrest; subst. lia.
  - destruct (IH st0 en0 Hin) as (H1 & H2 & H3). split; [lia|]. split; [exact H2 | exact H3].
Qed.

Lemma spans_shape (ms : list (nat * nat)) (len : nat) :
  map fst (spans ms len) = map fst ms /\
  (forall k st en st' en', spans ms len !! k = Some (st, en) ->
     spans ms len !! S k = Some (st', en') -> en = st') /\
  (forall st en, spans ms len !! (length (spans ms len) - 1) = Some (st, en) -> en = len).
Proof.
  induction ms as [|[st en] ms IH]; simpl.
  - split; [reflexivity|]. split; [intros ? ? ? ? ? H; discriminate H|]. intros ? ? H. discriminate H.
  - destruct IH as (IH1 & IH2 & IH3). split; [f_equal; exact IH1|]. split.
    + intros [|k] st0 en0 st1 en1 H0 H1.
      * simpl in H0, H1. injection H0 as <- <-.
        destruct ms as [|[st2 en2] ms']; [discriminate|]. simpl in H1. injection H1 as <- <-.
        reflexivity.
      * exact (IH2 k _ _ _ _ H0 H1).
    + intros st0 en0 H. rewrite Nat.sub_0_r in H.
      destruct ms as [|[st2 en2] ms'].
      * simpl in H. injection H as <- <-. reflexivity.
      * apply (IH3 st0). replace (length (spans ((st2, en2) :: ms') len)) with
          (S (length (spans ms' len))) in H by reflexivity.
        replace (length (spans ((st2, en2) :: ms') len) - 1) with (length (spans ms' len))
          by (simpl; lia).
        exact H.
Qed.

(** The question spans start at the markers, each span reaches up to the
    next marker and the last one to the end of the buffer; every span is
    non-empty, lies in the buffer and begins with "QUESTION". *)
Theorem question_spans_tile (ft : string) :
  let ms := finditer_question ft in
  let sps := spans ms (String.length ft) in
  map fst sps = map fst ms /\
  (forall st en, In (st, en) sps ->
     st < en <= String.length ft /\ String.prefix "QUESTION" (str_drop st ft) = true) /\
  (forall k st en st' en', sps !! k = Some (st, en) -> sps !! S k = Some (st', en') -> en = st') /\
  (forall st en, sps !! (length sps - 1) = Some (st, en) -> en = String.length ft).
Proof.
  cbv zeta. destruct (spans_shape (finditer_question ft) (String.length ft)) as (H1 & H2 & H3).
  split; [exact H1|]. split; [|split; [exact H2 | exact H3]].
  intros st en Hin.
  destruct (spans_within ft 0 _ (finditer_leftmost ft) st en Hin) as (_ & H4 & H5).
  split; [exact H4 | exact H5].
Qed.

(* ------------------------------------------------------------------ *)
(** ** The quiz title                                                  *)

Lemma lstrip_head (s r : string) (c : ascii) : lstrip s = String c r -> is_space c = false.
Proof.
  induction s as [|d s IH]; simpl; [discriminate|].
  destruct (is_space d) eqn:E; [exact IH|]. intros H. injection H as <- _. exact E.
Qed.

Lemma rev_str_acc (s acc : string) : rev_str s acc = rev_str s EmptyString +s+ acc.
Proof.
  revert acc. induction s as [|c s IH]; intros acc; simpl; [reflexivity|].
  rewrite IH, (IH (String c EmptyString)), str_app_assoc. reflexivity.
Qed.

Lemma rev_str_app (a b acc : string) : rev_str (a +s+ b) acc = rev_str b (rev_str a acc).
Proof. revert acc. induction a as [|c a IH]; intros acc; simpl; [reflexivity|]. apply IH. Qed.

Lemma lstrip_snoc (u : string) (c : ascii) :
  is_space c = false -> exists t, lstrip (u +s+ String c EmptyString) = t +s+ String c EmptyString.
Proof.
  intros Hc. induction u as [|d u IH]; simpl.
  - rewrite Hc. exists EmptyString. reflexivity.
  - destruct (is_space d); [exact IH|]. exists (String d u). reflexivity.
Qed.

Lemma strip_first (s r : string) (c : ascii) :
  lstrip s = String c r -> exists r', strip s = String c r'.
Proof.
  intros H. pose proof (lstrip_head _ _ _ H) as Hc.
  unfold strip, rstrip. rewrite H. simpl. rewrite (rev_str_acc r (String c EmptyString)).
  destruct (lstrip_snoc (rev_str r EmptyString) c Hc) as (t & ->).
  rewrite rev_str_app. simpl. exists (rev_str t EmptyString).
  rewrite rev_str_acc. reflexivity.
Qed.

Lemma strip_empty (s : string) : lstrip s = EmptyString -> strip s = EmptyString.
Proof. intros H. unfold strip, rstrip. rewrite H. reflexivity. Qed.

(** The quiz title is never empty and never spans two lines, so it
    fits on the front-matter line [quiz-title: "..."]. *)
Theorem quiz_title_one_line (pages : list string) (imgs : list image_occ) :
  fst (parse_vce_pdf pages imgs) <> EmptyString /\ no_nl (fst (parse_vce_pdf pages imgs)).
Proof.
  rewrite parse_vce_pdf_title. unfold quiz_title.
  assert (Hdef : default_title <> EmptyString /\ no_nl default_title).
  { split; [discriminate|]. unfold no_nl, chars. simpl.
    intros H. repeat destruct H as [H | H]; try discriminate H. exact H. }
  destruct (finditer_question (full_text pages)) as [|[st en] ms]; [exact Hdef|].
  set (x := substring 0 st (full_text pages)).
  destruct (String.eqb_spec (strip x) EmptyString) as [_ | Hne]; [exact Hdef|].
  destruct (lstrip x) as [|c r] eqn:Ex; [apply strip_empty in Ex; contradiction|].
  pose proof (lstrip_head _ _ _ Ex) as Hc.
  destruct (strip_first _ _ _ Ex) as (r' & Hr').
  assert (Hsplit : exists l' ps, split_char "010" (strip x) = String c l' :: ps).
  { rewrite Hr'. simpl.
    replace (Ascii.eqb c "010") with false
      by (symmetry; apply Ascii.eqb_neq; intros ->; discriminate Hc).
    destruct (split_char "010" r') as [|p ps]; eexists; eexists; reflexivity. }
  destruct Hsplit as (l' & ps & Hs). rewrite Hs. split.
  - assert (Hl : lstrip (String c l') = String c l') by (simpl; rewrite Hc; reflexivity).
    destruct (strip_first _ _ _ Hl) as (r'' & ->). discriminate.
  - intros H. apply chars_strip in H.
    apply (split_char_no_sep "010" (strip x) (String c l')); [rewrite Hs; left; reflexivity | exact H].
Qed.

(* ------------------------------------------------------------------ *)
(** ** The emitted questions                                           *)

Lemma process_span_cases (imgs : list image_occ) (po : list (nat * nat)) (ft : string)
    (last : Z) (qs : list question) (span : nat * nat) :
  process_span imgs po ft (last, qs) span = (last, qs) \/
  (question_text_lines (span_fields ft span) <> [] /\
   correct_answer_str (span_fields ft span) <> EmptyString /\
   exists last' t, process_span imgs po ft (last, qs) span =
     (last', (qs ++ [build_question t (options (span_fields ft span))
                                     (correct_answer_str (span_fields ft span))])%list)).
Proof.
  destruct (question_text_lines (span_fields ft span)) as [|x xs] eqn:Eq;
  [|destruct (String.eqb_spec (correct_answer_str (span_fields ft span)) EmptyString) as [Ea | Ea]].
  3:{ right. split; [congruence|]. split; [exact Ea|].
      rewrite (process_span_kept imgs po ft last qs span) by congruence.
      do 2 eexists. reflexivity. }
  all: left; destruct span as [a b]; unfold process_span; unfold span_fields in *;
       cbn [fst snd] in * |- *; destruct (page_span po a b) as [sp ep];
       set (L := span_lines (substring a (b - a) ft)) in *; clearbody L;
       destruct L as [|l ls]; [reflexivity|].
  - rewrite Eq. reflexivity.
  - rewrite Eq, Ea. reflexivity.
Qed.

Lemma process_spans_forall (P : question -> Prop) (imgs : list image_occ)
    (po : list (nat * nat)) (ft : string) (sps : list (nat * nat)) (last : Z) (qs : list question) :
  (forall span t, question_text_lines (span_fields ft span) <> [] ->
     correct_answer_str (span_fields ft span) <> EmptyString ->
     P (build_question t (options (span_fields ft span)) (correct_answer_str (span_fields ft span)))) ->
  Forall P qs -> Forall P (snd (process_spans imgs po ft sps (last, qs))).
Proof.
  intros HP. revert last qs. induction sps as [|span r IH]; intros last qs Hqs; [exact Hqs|].
  change (process_spans imgs po ft (span :: r) (last, qs))
    with (process_spans imgs po ft r (process_span imgs po ft (last, qs) span)).
  destruct (process_span_cases imgs po ft last qs span) as [-> | (H1 & H2 & last' & t & ->)].
  - apply IH, Hqs.
  - apply IH. apply Forall_app. split; [exact Hqs|]. constructor; [apply HP; assumption | constructor].
Qed.

Lemma process_spans_length (imgs : list image_occ) (po : list (nat * nat)) (ft : string)
    (sps : list (nat * nat)) (last : Z) (qs : list question) :
  length (snd (process_spans imgs po ft sps (last, qs))) <= length qs + length sps.
Proof.
  revert last qs. induction sps as [|span r IH]; intros last qs; [simpl; lia|].
  change (process_spans imgs po ft (span :: r) (last, qs))
    with (process_spans imgs po ft r (process_span imgs po ft (last, qs) span)).
  cbn [length].
  destruct (process_span_cases imgs po ft last qs span) as [-> | (_ & _ & last' & t & ->)].
  - specialize (IH last qs). lia.
  - specialize (IH last' (qs ++ [build_question t (options (span_fields ft span))
                                      (correct_answer_str (span_fields ft span))])%list).
    rewrite length_app in IH. simpl in IH. lia.
Qed.

Lemma parse_vce_pdf_questions (pages : list string) (imgs : list image_occ) :
  snd (parse_vce_pdf pages imgs) =
  snd (process_spans imgs (page_offsets pages) (full_text pages)
         (spans (finditer_question (full_text pages)) (String.length (full_text pages)))
         ((-1)%Z, [])).
Proof. unfold parse_vce_pdf. destruct (process_spans _ _ _ _ _). reflexivity. Qed.

Lemma spans_length (ms : list (nat * nat)) (len : nat) : length (spans ms len) = length ms.
Proof. induction ms as [|[st en] ms IH]; simpl; [reflexivity|]. now rewrite IH. Qed.

(** The parser emits at most one question per match of
    [QUESTION\s+\d+]. *)
Theorem questions_at_most_markers (pages : list string) (imgs : list image_occ) :
  length (snd (parse_vce_pdf pages imgs)) <= length (finditer_question (full_text pages)).
Proof.
  rewrite parse_vce_pdf_questions.
  pose proof (process_spans_length imgs (page_offsets pages) (full_text pages)
    (spans (finditer_question (full_text pages)) (String.length (full_text pages))) (-1)%Z []) as H.
  rewrite spans_length in H. simpl in H. exact H.
Qed.

Lemma build_question_kind (t : string) (opts : list string) (correct : string) :
  let q := build_question t opts correct in
  (q_type q = "@tf" /\ q_options q = [] /\ (q_answer q = "true" \/ q_answer q = "false")) \/
  (q_type q = "@mc" /\ exists u, is_upper u = true /\ q_answer q = String (lower_char u) EmptyString) \/
  q_type q = "@sata".
Proof.
  unfold build_question. destruct (is_tf opts).
  - left. cbn [q_type q_options q_answer]. split; [reflexivity|]. split; [reflexivity|].
    destruct (String.eqb _ "a"); [left | right]; reflexivity.
  - right. destruct (answer_letters correct) as [|x [|y r]] eqn:E; cbn [q_type q_answer length Nat.eqb].
    + right. reflexivity.
    + left. split; [reflexivity|].
      assert (Hx : In x (answer_letters correct)) by (rewrite E; left; reflexivity).
      apply answer_letters_in in Hx. destruct Hx as (u & _ & Hu & ->).
      exists u. split; [exact Hu | reflexivity].
    + right. reflexivity.
Qed.

(** Every emitted question is true/false, single-choice or
    multi-select; a true/false question has no options and the answer
    "true" or "false", a single-choice question has one lowercased letter
    as its answer. *)
Theorem question_kinds (pages : list string) (imgs : list image_occ) :
  Forall (fun q =>
    (q_type q = "@tf" /\ q_options q = [] /\ (q_answer q = "true" \/ q_answer q = "false")) \/
    (q_type q = "@mc" /\ exists u, is_upper u = true /\ q_answer q = String (lower_char u) EmptyString) \/
    q_type q = "@sata")
    (snd (parse_vce_pdf pages imgs)).
Proof.
  rewrite parse_vce_pdf_questions. apply process_spans_forall; [|constructor].
  intros span t _ _. apply build_question_kind.
Qed.

Lemma lower_char_upper (u : ascii) :
  is_upper u = true -> (97 <= code (lower_char u) <= 122).
Proof.
  intros H. assert (Hb : (97 <=? code (lower_char u)) && (code (lower_char u) <=? 122) = true).
  { destruct u as [[] [] [] [] [] [] [] []]; vm_compute in H |- *; congruence. }
  apply andb_prop in Hb. destruct Hb as [H1 H2]. apply Nat.leb_le in H1, H2. lia.
Qed.

Lemma reformat_option_shape (opt : string) :
  good_option opt ->
  exists u rest, is_upper u = true /\
    reformat_option opt = String (lower_char u) (String ")" (String " " rest)) /\
    no_nl (reformat_option opt).
Proof.
  intros Hg. destruct (match_option_good opt Hg) as (l & Ho & _).
  destruct Hg as [Hopt Hnl].
  assert (Hu : is_upper l = true).
  { rewrite Ho in Hopt. cbn [is_option_line] in Hopt. apply andb_prop in Hopt. apply Hopt. }
  assert (E : reformat_option opt =
              String (lower_char l) (String ")" (String " " (strip (str_drop 2 opt))))).
  { destruct opt as [|l0 r0]; [discriminate Ho|]. injection Ho as -> _. reflexivity. }
  exists l, (strip (str_drop 2 opt)). split; [exact Hu|].
  split; [exact E|]. rewrite E. unfold no_nl. cbn [chars list_ascii_of_string In].
  intros [H | [H | [H | H]]]; try discriminate H.
  - pose proof (lower_char_upper l Hu) as Hc. rewrite H in Hc. vm_compute in Hc. lia.
  - apply Hnl. apply chars_strip in H. unfold str_drop in H. exact (chars_substring _ _ _ _ H).
Qed.

(** Every option line of an emitted question reads "x) text" for a
    lowercased letter x, and has no newline in it. *)
Theorem option_lines_format (pages : list string) (imgs : list image_occ) :
  Forall (fun q => Forall (fun o =>
     exists u rest, is_upper u = true /\ o = String (lower_char u) (String ")" (String " " rest)) /\
       no_nl o) (q_options q))
    (snd (parse_vce_pdf pages imgs)).
Proof.
  rewrite parse_vce_pdf_questions. apply process_spans_forall; [|constructor].
  intros span t _ _. unfold build_question.
  destruct (is_tf _); cbn [q_options]; [constructor|].
  rewrite formatted_options_good by (intros o; apply span_options_good).
  apply Forall_forall. intros o Ho. rewrite list_elem_of_In, in_map_iff in Ho.
  destruct Ho as (opt & <- & Hin).
  destruct (reformat_option_shape opt (span_options_good _ span opt Hin)) as (u & rest & H1 & H2 & H3).
  exists u, rest. rewrite <- H2. split; [exact H1|]. split; [reflexivity | exact H3].
Qed.

Lemma append_last_length (xs : list string) (line : string) :
  length (append_last xs line) = length xs.
Proof. induction xs as [|x [|y r] IH]; simpl in *; [reflexivity | reflexivity | now rewrite IH]. Qed.

Lemma classify_fold_options (lines : list string) (c : cls) :
  length (options (fold_left classify_step lines c)) =
  length (options c) + length (List.filter is_option_line lines).
Proof.
  revert c. induction lines as [|l ls IH]; intros c; simpl; [lia|].
  rewrite IH. unfold classify_step.
  destruct (is_option_line l); cbn [options]; [rewrite length_app; simpl; lia|].
  destruct (contains _ _); cbn [options]; [lia|].
  destruct (negb (parsing_options c)); cbn [options]; [lia|].
  destruct (options c) as [|x xs] eqn:E; cbn [options]; rewrite ?E; [lia|].
  rewrite append_last_length. simpl. lia.
Qed.

Lemma formatted_options_length (opts : list string) :
  (forall o, In o opts -> good_option o) -> length (formatted_options opts) = length opts.
Proof. intros H. rewrite formatted_options_good by exact H. apply length_map. Qed.

(** A kept question that is not true/false has exactly one option per
    trimmed non-blank line of its span (the marker removed from the first)
    that starts with an uppercase letter and a period;
    the lines that follow such a line are appended to its option and
    never make an option of their own. *)
Theorem option_lines_count (imgs : list image_occ) (po : list (nat * nat)) (ft : string)
    (last : Z) (qs : list question) (span : nat * nat) :
  let c := span_fields ft span in
  question_text_lines c <> [] ->
  correct_answer_str c <> EmptyString ->
  is_tf (options c) = false ->
  exists last' q,
    process_span imgs po ft (last, qs) span = (last', (qs ++ [q])%list) /\
    length (q_options q) =
      length (List.filter is_option_line
                (clean_first (span_lines (substring (fst span) (snd span - fst span) ft)))).
Proof.
  intros c Hbody Hans Htf.
  rewrite (process_span_kept _ _ _ _ _ _ Hbody Hans). fold c.
  do 2 eexists. split; [reflexivity|].
  unfold build_question. rewrite Htf. cbn [q_options].
  rewrite formatted_options_length by (intros o; apply span_options_good).
  unfold c, span_fields, classify. rewrite classify_fold_options. reflexivity.
Qed.

Lemma classify_fold_text (lines : list string) (c : cls) :
  (forall l, In l (question_text_lines c) ->
     is_option_line l = false /\ contains "Correct Answer:" l = false) ->
  forall l, In l (question_text_lines (fold_left classify_step lines c)) ->
    is_option_line l = false /\ contains "Correct Answer:" l = false.
Proof.
  revert c. induction lines as [|x xs IH]; intros c Hc; simpl; [exact Hc|].
  apply IH. unfold classify_step.
  destruct (is_option_line x) eqn:Eo; cbn [question_text_lines]; [exact Hc|].
  destruct (contains _ x) eqn:Ec; cbn [question_text_lines]; [exact Hc|].
  assert (Hext : forall l, In l (question_text_lines c ++ [x])%list ->
            is_option_line l = false /\ contains "Correct Answer:" l = false).
  { intros l Hl. apply in_app_or in Hl. destruct Hl as [Hl | [<- | []]]; [exact (Hc l Hl)|].
    split; assumption. }
  destruct (negb (parsing_options c)); cbn [question_text_lines]; [exact Hext|].
  destruct (options c); cbn [question_text_lines]; [exact Hext | exact Hc].
Qed.

(** No line of a question's body is an option line or an answer line:
    a line that starts with an uppercase letter and a period, or that
    contains "Correct Answer:", never reaches the question text. *)
Theorem question_text_lines_clean (lines : list string) :
  forall l, In l (question_text_lines (classify lines)) ->
    is_option_line l = false /\ contains "Correct Answer:" l = false.
Proof. apply classify_fold_text. intros l []. Qed.

Lemma digit_char (d : nat) :
  d < 10 -> is_digit (ascii_of_nat (48 + d)) = true /\ code (ascii_of_nat (48 + d)) - 48 = d.
Proof.
  intros Hd. unfold is_digit, code. rewrite nat_ascii_embedding by lia.
  split; [apply andb_true_intro; split; apply Nat.leb_le; lia | lia].
Qed.

Lemma decimal_fuel_S (f n : nat) (acc : string) :
  decimal_fuel (S f) n acc =
  let acc' := String (ascii_of_nat (48 + n mod 10)) acc in
  if n <? 10 then acc' else decimal_fuel f (n / 10) acc'.
Proof. reflexivity. Qed.

Lemma read_decimal_fuel (f n : nat) (acc : string) (k : nat) :
  n < S f ->
  exists p, read_decimal (decimal_fuel (S f) n acc) k = read_decimal acc (k * p + n).
Proof.
  revert n acc k. induction f as [|f IH]; intros n acc k Hn.
  - assert (n = 0) as -> by lia. exists 10. reflexivity.
  - pose proof (Nat.div_mod n 10 ltac:(lia)) as Hdm.
    pose proof (Nat.mod_upper_bound n 10 ltac:(lia)) as Hm.
    destruct (digit_char (n mod 10) Hm) as [Hdig Hcode].
    rewrite decimal_fuel_S. cbv zeta. destruct (n <? 10) eqn:Hlt.
    + apply Nat.ltb_lt in Hlt. exists 10. cbn [read_decimal]. rewrite Hdig, Hcode.
      rewrite Nat.mod_small by exact Hlt. f_equal; lia.
    + apply Nat.ltb_ge in Hlt.
      destruct (IH (n / 10) (String (ascii_of_nat (48 + n mod 10)) acc) k ltac:(lia)) as [p Hp].
      rewrite Hp. exists (p * 10). cbn [read_decimal]. rewrite Hdig, Hcode. f_equal; lia.
Qed.

Lemma decimal_fuel_lead (f n : nat) (acc : string) :
  n < S f -> 0 < n ->
  exists d r, decimal_fuel (S f) n acc = String d r /\ d <> "0"%char.
Proof.
  revert n acc. induction f as [|f IH]; intros n acc Hn Hpos; [lia|].
  pose proof (Nat.div_mod n 10 ltac:(lia)) as Hdm.
  pose proof (Nat.mod_upper_bound n 10 ltac:(lia)) as Hm.
  rewrite decimal_fuel_S. cbv zeta. destruct (n <? 10) eqn:Hlt.
  - apply Nat.ltb_lt in Hlt. do 2 eexists. split; [reflexivity|].
    rewrite Nat.mod_small by exact Hlt. intros H.
    apply (f_equal nat_of_ascii) in H. rewrite nat_ascii_embedding in H by lia.
    vm_compute in H. lia.
  - apply Nat.ltb_ge in Hlt. apply IH; lia.
Qed.

(** The question number the formatter prints, [str(i)], is the decimal
    numeral of [i]: its characters are all digits, they read back as [i],
    and it has no leading zero unless [i] is zero. *)
Theorem question_number_decimal (n : nat) :
  read_decimal (nat_to_string n) 0 = Some n /\
  (0 < n -> exists d r, nat_to_string n = String d r /\ d <> "0"%char).
Proof.
  split.
  - unfold nat_to_string. destruct (read_decimal_fuel n n EmptyString 0 ltac:(lia)) as [p ->].
    reflexivity.
  - intros Hpos. apply decimal_fuel_lead; lia.
Qed.

Lemma join_snoc_empty (sep : string) (xs : list string) :
  xs <> [] -> join sep (xs ++ [EmptyString]) = join sep xs +s+ sep.
Proof.
  induction xs as [|x [|y r] IH]; intros Hne; [congruence| |].
  - cbn [app join]. rewrite str_app_nil_r. reflexivity.
  - change ((x :: y :: r) ++ [EmptyString])%list with (x :: ((y :: r) ++ [EmptyString]))%list.
    assert (Hc : ((y :: r) ++ [EmptyString])%list = y :: (r ++ [EmptyString])%list) by reflexivity.
    cbn [join]. rewrite Hc. rewrite <- Hc. rewrite IH by discriminate.
    change (join sep (x :: y :: r)) with (x +s+ sep +s+ join sep (y :: r)).
    rewrite !str_app_assoc. reflexivity.
Qed.

Lemma question_block_snoc (i : nat) (qs : list question) :
  question_block i qs = [] \/ exists zs, question_block i qs = (zs ++ [EmptyString])%list.
Proof.
  revert i. induction qs as [|q r IH]; intros i; [left; reflexivity|right].
  cbn [question_block]. destruct (IH (S i)) as [-> | [zs ->]].
  - exists ([q_type q +s+ " " +s+ nat_to_string i +s+ ") " +s+ q_text q] ++
            (match q_options q with [] => [] | opts => opts end) ++ ["= " +s+ q_answer q])%list.
    unfold question_lines. rewrite app_nil_r, <- !app_assoc. reflexivity.
  - exists (question_lines i q ++ zs)%list. rewrite app_assoc. reflexivity.
Qed.

(** The document the converter writes always ends with a newline: the
    header and every question block close with an empty line. *)
Theorem convert_pdf_trailing_newline (pages : list pdf_page) :
  exists body, convert_pdf pages = body +s+ nl.
Proof.
  unfold convert_pdf. destruct (parse_pdf pages) as [title qs].
  rewrite format_flashquiz_run. cbn [fst st_questions]. unfold flashquiz_text.
  destruct (question_block_snoc 1 qs) as [-> | [zs ->]].
  - exists (join nl ["---"; "quiz-title: " +s+ dq +s+ title +s+ dq; "time-limit: 0";
                     "pass-score: 80"; "shuffle: true"; "show-answer: true";
                     "exam-range: " +s+ dq +s+ "-" +s+ dq; "---"]).
    rewrite app_nil_r. apply (join_snoc_empty nl [_; _; _; _; _; _; _; _]). discriminate.
  - exists (join nl (header_lines title ++ zs)).
    rewrite app_assoc. apply join_snoc_empty. destruct zs; discriminate.
Qed.

(** A document whose extracted text has no "QUESTION <n>" marker anywhere
    converts to the bare header with the default title and no question. *)
Theorem convert_pdf_no_markers (pages : list pdf_page) :
  (forall k, match_question_at (str_drop k (full_text (map page_text pages))) = None) ->
  convert_pdf pages = flashquiz_text default_title [].
Proof.
  intros Hnone. apply finditer_question_nil_iff in Hnone.
  unfold convert_pdf, parse_pdf, parse_vce_pdf. rewrite Hnone.
  cbn [spans quiz_title process_spans fold_left snd].
  rewrite format_flashquiz_run. reflexivity.
Qed.

(** The payload of an image's data URI, the text after ";base64,",
    decodes back to the image's bytes: no byte is lost or altered by the
    base64 encoding, whatever the length of the data. *)
Theorem image_uri_decodes (data : list Byte.byte) (name r : string) :
  get_image_base64_from_data data name = Some r ->
  exists ext payload, r = "data:image/" +s+ ext +s+ ";base64," +s+ payload /\
    b64decode payload = Some data.
Proof.
  intros H. destruct (image_uri_parts _ _ _ H) as (ext & _ & ->).
  exists ext, (b64encode data). split; [reflexivity | apply b64decode_encode].
Qed.

(* ------------------------------------------------------------------ *)
(** ** The extra properties at concrete inputs                         *)

Lemma image_occurrences_per_page_witness :
  sample_pages !! 2 = Some broken_data_page /\
  List.filter (fun o => img_page o =? 2) (extract_all_image_occurrences sample_pages) =
  fst (page_occurrences 2 broken_data_page).
Proof.
  split; [reflexivity|]. apply image_occurrences_per_page. reflexivity.
Defined.


Lemma image_uri_media_type_witness :
  get_image_base64_from_data jpeg_bytes "/Im1" =
    Some ("data:image/jpg;base64," +s+ b64encode jpeg_bytes) /\
  exists ext, In ext ["png"; "jpg"; "jpeg"; "gif"] /\
    String.prefix ("data:image/" +s+ ext +s+ ";") ("data:image/jpg;base64," +s+ b64encode jpeg_bytes) = true.
Proof.
  split; [reflexivity|]. apply (image_uri_media_type jpeg_bytes "/Im1"). reflexivity.
Defined.

Lemma image_uri_injective_witness :
  get_image_base64_from_data jpeg_bytes "/Im1" =
    Some ("data:image/jpg;base64," +s+ b64encode jpeg_bytes) /\
  get_image_base64_from_data jpeg_bytes "/photo.PNG" =
    Some ("data:image/jpg;base64," +s+ b64encode jpeg_bytes) /\
  jpeg_bytes = jpeg_bytes.
Proof.
  split; [reflexivity|]. split; [reflexivity|].
  apply (image_uri_injective jpeg_bytes jpeg_bytes "/Im1" "/photo.PNG"
           ("data:image/jpg;base64," +s+ b64encode jpeg_bytes)); reflexivity.
Defined.

Lemma image_uri_markdown_safe_witness :
  get_image_base64_from_data jpeg_bytes "/Im1" =
    Some ("data:image/jpg;base64," +s+ b64encode jpeg_bytes) /\
  forall c, In c (chars ("data:image/jpg;base64," +s+ b64encode jpeg_bytes)) ->
    c <> ")"%char /\ is_space c = false.
Proof.
  split; [reflexivity|]. apply (image_uri_markdown_safe jpeg_bytes "/Im1"). reflexivity.
Defined.

Lemma page_offsets_locate_witness :
  ["Intro"; "QUESTION 1 What?"] !! 1 = Some "QUESTION 1 What?" /\
  exists off, page_offsets ["Intro"; "QUESTION 1 What?"] !! 1 = Some (off, 1) /\
    substring off (String.length "QUESTION 1 What?" + 1) (full_text ["Intro"; "QUESTION 1 What?"]) =
    "QUESTION 1 What?" +s+ nl.
Proof.
  split; [reflexivity|]. apply page_offsets_locate. reflexivity.
Defined.

Lemma page_span_ordered_witness :
  3 <= 10 /\
  fst (page_span (page_offsets ["Intro"; "QUESTION 1 What?"]) 3 10) <=
    snd (page_span (page_offsets ["Intro"; "QUESTION 1 What?"]) 3 10) /\
  (["Intro"; "QUESTION 1 What?"] <> [] ->
   snd (page_span (page_offsets ["Intro"; "QUESTION 1 What?"]) 3 10) < length ["Intro"; "QUESTION 1 What?"]).
Proof.
  split; [lia|]. apply page_span_ordered. lia.
Defined.

Lemma option_lines_count_witness :
  question_text_lines (span_fields wrapped_option_text (0, String.length wrapped_option_text)) <> [] /\
  correct_answer_str (span_fields wrapped_option_text (0, String.length wrapped_option_text)) <> EmptyString /\
  is_tf (options (span_fields wrapped_option_text (0, String.length wrapped_option_text))) = false /\
  exists last' q,
    process_span [] [] wrapped_option_text ((-1)%Z, []) (0, String.length wrapped_option_text) =
      (last', ([] ++ [q])%list) /\
    length (q_options q) =
      length (List.filter is_option_line
                (clean_first (span_lines (substring 0 (String.length wrapped_option_text - 0)
                                            wrapped_option_text)))).
Proof.
  assert (H1 : question_text_lines (span_fields wrapped_option_text (0, String.length wrapped_option_text)) <> [])
    by (vm_compute; discriminate).
  assert (H2 : correct_answer_str (span_fields wrapped_option_text (0, String.length wrapped_option_text)) <> EmptyString)
    by (vm_compute; discriminate).
  assert (H3 : is_tf (options (span_fields wrapped_option_text (0, String.length wrapped_option_text))) = false)
    by (vm_compute; reflexivity).
  split; [exact H1|]. split; [exact H2|]. split; [exact H3|].
  exact (option_lines_count [] [] wrapped_option_text (-1)%Z [] (0, String.length wrapped_option_text) H1 H2 H3).
Defined.

Lemma convert_pdf_no_markers_witness :
  (forall k, match_question_at (str_drop k (full_text (map page_text marker_free_pages))) = None) /\
  convert_pdf marker_free_pages = flashquiz_text default_title [].
Proof.
  assert (H : forall k, match_question_at (str_drop k (full_text (map page_text marker_free_pages))) = None).
  { apply finditer_question_nil_iff. vm_compute. reflexivity. }
  split; [exact H|]. exact (convert_pdf_no_markers marker_free_pages H).
Defined.

Lemma image_uri_decodes_witness :
  get_image_base64_from_data jpeg_bytes "/Im1" =
    Some ("data:image/jpg;base64," +s+ b64encode jpeg_bytes) /\
  exists ext payload, "data:image/jpg;base64," +s+ b64encode jpeg_bytes =
      "data:image/" +s+ ext +s+ ";base64," +s+ payload /\
    b64decode payload = Some jpeg_bytes.
Proof.
  split; [reflexivity|]. apply (image_uri_decodes jpeg_bytes "/Im1"). reflexivity.
Defined.

Lemma question_text_lines_clean_witness :
  In "Pick one." (question_text_lines (classify ["Pick one."; "A. red"; "B. light"; "blue";
                                                 "Correct Answer: B"])) /\
  (is_option_line "Pick one." = false /\ contains "Correct Answer:" "Pick one." = false).
Proof.
  assert (H : In "Pick one." (question_text_lines (classify ["Pick one."; "A. red"; "B. light"; "blue";
                                                             "Correct Answer: B"])))
    by (vm_compute; left; reflexivity).
  split; [exact H|]. exact (question_text_lines_clean _ "Pick one." H).
Defined.
